(** * Video-Audio-Extractor: a shallow embedding of [audio_extractor.py]

    The script is a single Streamlit page.  It probes an uploaded video with
    ffprobe, lets the user pick an audio track, extracts it with ffmpeg,
    optionally runs a two-step enhancement (librosa pre-emphasis, numpy peak
    normalisation), converts the result with pydub and finally unlinks its
    temporary files.

    The embedding follows the script block by block.  External programs and
    libraries (ffprobe, ffmpeg, json, librosa.load, soundfile, pydub, the
    file system, the widgets) are the fields of a [world] record: every
    statement below is quantified over all worlds.  The script's effects are
    threaded through a state-and-exception monad whose state holds the set of
    existing files, one chronological log of widget calls and external
    calls, and the module namespace that the clean-up loop inspects through
    [locals()].  Audio samples are IEEE binary32 values ([spec_float] at
    precision 24), the dtype librosa and numpy use here.

    Not modelled: the static page furniture (title, sidebar layout, the
    "How this works" expander and the footer, lines 13-23 and 212-232),
    which neither reads nor writes anything the workflow uses. *)

From Stdlib Require Import ZArith Lia Bool Ascii DecimalString DecimalNat.
From Stdlib Require Import Floats.SpecFloat.
From stdpp Require Import base gmap sets list strings.

Set Warnings "-register-all".

(* ===================================================================== *)
(** * Part I: definitions                                                 *)
(* ===================================================================== *)

(** ** Python values decoded from ffprobe's JSON output *)

(** A JSON real is kept as its text: the script never computes with one. *)
Inductive pyval : Type :=
  | PNone
  | PBool (b : bool)
  | PInt (z : Z)
  | PFloat (text : string)
  | PStr (s : string)
  | PList (l : list pyval)
  | PDict (d : gmap string pyval).

(** Result of a Python computation: a value or a raised exception, the
    latter carried as [str(e)], which is all the script ever reads of it. *)
Inductive outcome (A : Type) : Type :=
  | Ok (a : A)
  | Raised (e : string).
Arguments Ok {A} a.
Arguments Raised {A} e.

(** The [info] dictionary built at lines 47-56, one field per key. *)
Record info : Type := mk_info {
  index : pyval;
  codec : pyval;
  sample_rate : pyval;
  channels : pyval;
  duration : pyval;
  bit_rate : pyval;
  language : pyval;
  title : pyval
}.

Definition unknown : pyval := PStr "unknown".

Definition py_type_name (v : pyval) : string :=
  match v with
  | PNone => "NoneType"
  | PBool _ => "bool"
  | PInt _ => "int"
  | PFloat _ => "float"
  | PStr _ => "str"
  | PList _ => "list"
  | PDict _ => "dict"
  end.

(** The AttributeError of [v.get(...)] on a value that is not a dict. *)
Definition no_get (v : pyval) : string :=
  "'" +:+ py_type_name v +:+ "' object has no attribute 'get'".

(** The TypeError of [for x in v] on a value that cannot be iterated. *)
Definition not_iterable (v : pyval) : string :=
  "'" +:+ py_type_name v +:+ "' object is not iterable".

(** [v == 'unknown']: only a [str] can equal a [str]. *)
Definition is_unknown (v : pyval) : bool :=
  match v with
  | PStr s => String.eqb s "unknown"
  | _ => false
  end.

(** [d.get(key, default)] on a dict. *)
Definition dict_get (d : gmap string pyval) (key : string) (dflt : pyval) : pyval :=
  match d !! key with
  | Some v => v
  | None => dflt
  end.

(** [stream.get('tags', {}).get(key, 'unknown') if 'tags' in stream else
    'unknown'] for a dict [stream]; [.get] on a non-dict raises. *)
Definition tag_get (d : gmap string pyval) (key : string) : outcome pyval :=
  match d !! "tags" with
  | None => Ok unknown
  | Some (PDict t) => Ok (dict_get t key unknown)
  | Some v => Raised (no_get v)
  end.

(** The loop body of lines 47-57 for one entry of [streams]. *)
Definition describe_stream (stream : pyval) : outcome info :=
  match stream with
  | PDict d =>
      match tag_get d "language", tag_get d "title" with
      | Ok lang, Ok ttl =>
          Ok {| index := dict_get d "index" PNone;
                codec := dict_get d "codec_name" unknown;
                sample_rate := dict_get d "sample_rate" unknown;
                channels := dict_get d "channels" unknown;
                duration := dict_get d "duration" unknown;
                bit_rate := dict_get d "bit_rate" unknown;
                language := lang;
                title := ttl |}
      | Raised e, _ => Raised e
      | _, Raised e => Raised e
      end
  | _ => Raised (no_get stream)
  end.

(** Iterating a decoded JSON value in a [for] loop. *)
Definition py_iter (v : pyval) : outcome (list pyval) :=
  match v with
  | PList l => Ok l
  | PDict d => Ok (PStr <$> (map_to_list d).*1)
  | PStr s => Ok ((fun c => PStr (String c EmptyString)) <$> String.list_ascii_of_string s)
  | _ => Raised (not_iterable v)
  end.

Fixpoint describe_all (items : list pyval) : outcome (list info) :=
  match items with
  | [] => Ok []
  | s :: rest =>
      match describe_stream s with
      | Raised e => Raised e
      | Ok i =>
          match describe_all rest with
          | Raised e => Raised e
          | Ok infos => Ok (i :: infos)
          end
      end
  end.

(** ** Strings *)

(** Decimal rendering of a non-negative [int] inside an f-string. *)
Definition dec (n : nat) : string := NilEmpty.string_of_uint (Nat.to_uint n).

Definition is_digit (c : ascii) : bool :=
  match c with
  | "0" | "1" | "2" | "3" | "4" | "5" | "6" | "7" | "8" | "9" => true
  | _ => false
  end%char.

Fixpoint all_digits (s : string) : bool :=
  match s with
  | EmptyString => true
  | String c s' => is_digit c && all_digits s'
  end.

(** Python's [s.replace(old, new)] for a non-empty [old]: a left-to-right
    scan over non-overlapping occurrences.  [skip] counts the characters of
    a matched occurrence that are still to be passed over. *)
Fixpoint replace_from (old new : string) (skip : nat) (s : string) : string :=
  match s with
  | EmptyString => EmptyString
  | String c s' =>
      match skip with
      | S k => replace_from old new k s'
      | O =>
          if String.prefix old s
          then new +:+ replace_from old new (String.length old - 1) s'
          else String c (replace_from old new 0 s')
      end
  end.

Definition str_replace (s old new : string) : string := replace_from old new 0 s.

(** [old in s] for strings. *)
Fixpoint occurs (old s : string) : bool :=
  String.prefix old s ||
  match s with
  | EmptyString => false
  | String _ s' => occurs old s'
  end.

(** [options.index(x)]: the first position holding [x]. *)
Fixpoint list_index (x : string) (options : list string) : option nat :=
  match options with
  | [] => None
  | o :: rest => if String.eqb o x then Some 0 else S <$> list_index x rest
  end.

(** ** Output formats of the sidebar select box *)

Inductive format : Type := mp3 | wav | ogg.

Definition format_str (f : format) : string :=
  match f with mp3 => "mp3" | wav => "wav" | ogg => "ogg" end.

Definition format_upper (f : format) : string :=
  match f with mp3 => "MP3" | wav => "WAV" | ogg => "OGG" end.

Definition is_wav (f : format) : bool :=
  match f with wav => true | _ => false end.

(** ** binary32 samples *)

Definition prec : Z := 24.
Definition emax : Z := 128.

Definition f32_one : spec_float := S754_finite false 8388608 (-23).
Definition f32_two : spec_float := S754_finite false 8388608 (-22).
(** 0.97 rounded to binary32. *)
Definition f32_coef : spec_float := S754_finite false 16273900 (-24).

Definition is_nan (x : spec_float) : bool :=
  match x with S754_nan => true | _ => false end.

Definition is_zero (x : spec_float) : bool :=
  match x with S754_zero _ => true | _ => false end.

(** A well-formed binary32 value that is neither NaN nor infinite. *)
Definition finite32 (x : spec_float) : bool :=
  match x with
  | S754_zero _ => true
  | S754_finite _ m e => bounded prec emax m e
  | _ => false
  end.

(** The values [SFabs] returns on finite inputs. *)
Definition nonneg32 (x : spec_float) : bool :=
  match x with
  | S754_zero false | S754_finite false _ _ => true
  | _ => false
  end.

Definition silent (y : list spec_float) : bool := forallb is_zero y.

(** First-order FIR section of [scipy.signal.lfilter(b, [1], x, zi=[z])] in
    transposed direct form II: [y[n] = b0*x[n] + z[n-1]], [z[n] = b1*x[n]]. *)
Fixpoint lfilter1 (b0 b1 z : spec_float) (x : list spec_float) : list spec_float :=
  match x with
  | [] => []
  | xn :: rest =>
      SFadd prec emax (SFmul prec emax b0 xn) z
        :: lfilter1 b0 b1 (SFmul prec emax b1 xn) rest
  end.

(** [librosa.effects.preemphasis(y)] with its defaults: [coef = 0.97] and
    initial state [2*y[0] - y[1]].  Signals shorter than two samples give an
    initial state of the wrong shape, which [lfilter] rejects. *)
Definition preemphasis (y : list spec_float) : outcome (list spec_float) :=
  match y with
  | y0 :: y1 :: _ =>
      let zi := SFsub prec emax (SFmul prec emax f32_two y0) y1 in
      Ok (lfilter1 f32_one (SFopp f32_coef) zi y)
  | _ => Raised "Unexpected shape for zi: expected (1,), found (0,)."
  end.

Definition np_abs (y : list spec_float) : list spec_float := SFabs <$> y.

(** numpy's [maximum] on floats: [(a >= b || isnan(a)) ? a : b]. *)
Definition np_maximum (a b : spec_float) : spec_float :=
  if SFleb b a || is_nan a then a else b.

(** [np.max] of a one-dimensional array. *)
Definition np_max (y : list spec_float) : outcome spec_float :=
  match y with
  | [] => Raised "zero-size array to reduction operation maximum which has no identity"
  | a :: rest => Ok (fold_left np_maximum rest a)
  end.

(** [y / peak]: numpy's element-wise true division.  Under numpy's default
    error state a zero divisor is a warning, not an exception, and the
    quotient is the IEEE one. *)
Definition np_divide (y : list spec_float) (peak : spec_float) : list spec_float :=
  (fun x => SFdiv prec emax x peak) <$> y.

(** Line 152: [y / np.max(np.abs(y))]. *)
Definition peak_normalize (y : list spec_float) : outcome (list spec_float) :=
  match np_max (np_abs y) with
  | Ok peak => Ok (np_divide y peak)
  | Raised e => Raised e
  end.

(** ** Events, state and the outside world *)

(** Widget calls and external calls, in the order the script makes them. *)
Inductive event : Type :=
  | UiWrite (filename : string) (size : Z)
  | UiVideo
  | UiSpinner (msg : string)
  | UiError (msg : string)
  | UiWarning (msg : string)
  | UiInfo (msg : string)
  | UiSuccess (msg : string)
  | UiSubheader (msg : string)
  | UiAudio (path fmt : string)
  | UiDownload (label path file_name mime : string)
  | CallFfprobe (cmd : list string)
  | CallFfmpeg (cmd : list string)
  | CallLoad (path : string)
  | CallSfWrite (path : string) (y : list spec_float) (sr : Z)
  | CallFromFile (path : string)
  | CallExport (path : string) (fmt : string)
  | CallOpen (path : string)
  | CallUnlink (path : string).

(** [fs]: the paths that exist; [log]: what happened so far; [locals]: the
    path-valued names bound in the module namespace. *)
Record state : Type := mk_state {
  fs : gset string;
  log : list event;
  locals : gmap string string
}.

Definition initial_state : state :=
  {| fs := ∅; log := []; locals := ∅ |}.

(** Everything the script does not decide itself. *)
Record world : Type := mk_world {
  (* the user *)
  uploaded_file : option (string * Z);
  enhance_audio : bool;
  output_format : format;
  selection : option nat;
  button_pressed : bool;
  (* tempfile.NamedTemporaryFile(delete=False).name at the three call sites *)
  tmp_video : string;
  tmp_audio : string;
  tmp_output : string;
  (* subprocess.run for ffprobe (text mode): returncode, stdout, stderr *)
  run_ffprobe : list string -> outcome (Z * string * string);
  json_loads : string -> outcome pyval;
  (* subprocess.run for ffmpeg: returncode and raw stderr *)
  run_ffmpeg : list string -> outcome (Z * list Byte.byte);
  decode : list Byte.byte -> outcome string;
  (* str() of a value inside an f-string *)
  py_format : pyval -> string;
  (* librosa.load(path, sr=None) *)
  librosa_load : string -> outcome (list spec_float * Z);
  (* the exception, if any, of soundfile, pydub, open and os.unlink *)
  sf_write : string -> list spec_float -> Z -> option string;
  from_file : string -> option string;
  export : string -> format -> option string;
  open_rb : string -> option string;
  unlink : string -> option string;
  (* pathlib.Path(name).stem *)
  path_stem : string -> string
}.

(** ** The monad *)

Definition M (A : Type) : Type := state -> outcome A * state.

Definition ret {A} (a : A) : M A := fun st => (Ok a, st).

Definition raise {A} (e : string) : M A := fun st => (Raised e, st).

Definition bind {A B} (c : M A) (k : A -> M B) : M B :=
  fun st =>
    match c st with
    | (Ok a, st') => k a st'
    | (Raised e, st') => (Raised e, st')
    end.

Declare Scope script_scope.
Delimit Scope script_scope with script.
Notation "'let*' x ':=' c 'in' k" := (bind c (fun x => k))
  (at level 10, x name, c at level 100, k at level 200) : script_scope.
Notation "c1 ';;' c2" := (bind c1 (fun _ => c2))
  (at level 100, c2 at level 200, right associativity) : script_scope.
Open Scope script_scope.

(** [try: body  except Exception as e: handler(e)] *)
Definition try_except {A} (body : M A) (handler : string -> M A) : M A :=
  fun st =>
    match body st with
    | (Raised e, st') => handler e st'
    | r => r
    end.

(** [try: body  finally: final] *)
Definition try_finally {A} (body : M A) (final : M unit) : M A :=
  fun st =>
    let '(r, st') := body st in
    match final st' with
    | (Ok _, st'') => (r, st'')
    | (Raised e, st'') => (Raised e, st'')
    end.

Definition lift {A} (r : outcome A) : M A := fun st => (r, st).

Definition emit (ev : event) : M unit :=
  fun st => (Ok tt, {| fs := fs st; log := log st ++ [ev]; locals := locals st |}).

(** [name = path] at module level. *)
Definition assign (name path : string) : M unit :=
  fun st => (Ok tt, {| fs := fs st; log := log st; locals := <[name := path]> (locals st) |}).

Definition create_file (path : string) : M unit :=
  fun st => (Ok tt, {| fs := {[path]} ∪ fs st; log := log st; locals := locals st |}).

Definition remove_file (path : string) : M unit :=
  fun st => (Ok tt, {| fs := fs st ∖ {[path]}; log := log st; locals := locals st |}).

Definition get_locals : M (gmap string string) := fun st => (Ok (locals st), st).

Definition path_exists (path : string) : M bool :=
  fun st => (Ok (bool_decide (path ∈ fs st)), st).

(** A call that either raises or returns nothing. *)
Definition attempt (r : option string) : M unit :=
  match r with
  | Some e => raise e
  | None => ret tt
  end.

Fixpoint for_each {A} (l : list A) (body : A -> M unit) : M unit :=
  match l with
  | [] => ret tt
  | x :: rest => body x ;; for_each rest body
  end.

(** ** The script *)

Section Script.
Variable w : world.

Definition ffprobe_cmd (video_path : string) : list string :=
  ["ffprobe"; "-v"; "quiet"; "-print_format"; "json"; "-show_streams";
   "-select_streams"; "a"; video_path].

(** Lines 26-62. *)
Definition get_audio_streams (video_path : string) : M (list info) :=
  try_except
    (let cmd := ffprobe_cmd video_path in
     emit (CallFfprobe cmd) ;;
     let* result := lift (run_ffprobe w cmd) in
     let '(returncode, stdout, stderr) := result in
     if negb (returncode =? 0)%Z then
       emit (UiError ("Error analyzing video: " +:+ stderr)) ;;
       ret []
     else
       let* data := lift (json_loads w stdout) in
       let* streams :=
         match data with
         | PDict d => ret (dict_get d "streams" (PList []))
         | _ => raise (no_get data)
         end in
       let* items := lift (py_iter streams) in
       lift (describe_all items))
    (fun e =>
       emit (UiError ("Error getting audio streams: " +:+ e)) ;;
       ret []).

Definition ffmpeg_cmd (video_path : string) (audio_index : nat) (output_path : string)
  : list string :=
  ["ffmpeg"; "-i"; video_path; "-map"; "0:a:" +:+ dec audio_index;
   "-vn"; "-acodec"; "pcm_s16le"; "-ar"; "44100"; "-y"; output_path].

(** Lines 65-87. *)
Definition extract_audio_track (video_path : string) (audio_index : nat)
    (output_path : string) : M bool :=
  try_except
    (let cmd := ffmpeg_cmd video_path audio_index output_path in
     emit (CallFfmpeg cmd) ;;
     let* result := lift (run_ffmpeg w cmd) in
     let '(returncode, stderr) := result in
     if negb (returncode =? 0)%Z then
       let* text := lift (decode w stderr) in
       emit (UiError ("Error extracting audio: " +:+ text)) ;;
       ret false
     else ret true)
    (fun e =>
       emit (UiError ("Error extracting audio track: " +:+ e)) ;;
       ret false).

(** Lines 120-130: the label of the entry at position [i]. *)
Definition track_label (i : nat) (stream : info) : string :=
  "Track " +:+ dec i
  +:+ (if is_unknown (language stream) then EmptyString
       else " - Language: " +:+ py_format w (language stream))
  +:+ (if is_unknown (title stream) then EmptyString
       else " - Title: " +:+ py_format w (title stream))
  +:+ " - Channels: " +:+ py_format w (channels stream)
  +:+ ", Codec: " +:+ py_format w (codec stream).

(** Lines 118-132, for the entries from position [i] on. *)
Fixpoint track_options_from (i : nat) (audio_streams : list info) : list string :=
  match audio_streams with
  | [] => []
  | stream :: rest => track_label i stream :: track_options_from (S i) rest
  end.

Definition track_options (audio_streams : list info) : list string :=
  track_options_from 0 audio_streams.

(** [st.selectbox(..., options=options, index=0)]: the option at the
    position the user picked, position 0 while untouched. *)
Definition st_selectbox (options : list string) (picked : option nat) : string :=
  match options !! default 0 picked with
  | Some o => o
  | None => default EmptyString (options !! 0)
  end.

(** Lines 134-135. *)
Definition selected_index (audio_streams : list info) : outcome nat :=
  let options := track_options audio_streams in
  let selected_track := st_selectbox options (selection w) in
  match list_index selected_track options with
  | Some i => Ok i
  | None => Raised ("'" +:+ selected_track +:+ "' is not in list")
  end.

(** Lines 148-156. *)
Definition enhancement_block (audio_path : string) : M string :=
  emit (UiInfo "Applying ML audio enhancement...") ;;
  emit (CallLoad audio_path) ;;
  let* loaded := lift (librosa_load w audio_path) in
  let '(y, sr) := loaded in
  let* y_enhanced := lift (preemphasis y) in
  let* y_enhanced := lift (peak_normalize y_enhanced) in
  let enhanced_path := str_replace audio_path ".wav" "_enhanced.wav" in
  assign "enhanced_path" enhanced_path ;;
  emit (CallSfWrite enhanced_path y_enhanced sr) ;;
  attempt (sf_write w enhanced_path y_enhanced sr) ;;
  create_file enhanced_path ;;
  assign "final_audio_path" enhanced_path ;;
  ret enhanced_path.

(** Lines 161-167. *)
Definition conversion_block (final_audio_path : string) : M string :=
  if negb (is_wav (output_format w)) then
    emit (CallFromFile final_audio_path) ;;
    attempt (from_file w final_audio_path) ;;
    create_file (tmp_output w) ;;
    emit (CallExport (tmp_output w) (format_str (output_format w))) ;;
    attempt (export w (tmp_output w) (output_format w)) ;;
    assign "final_output_path" (tmp_output w) ;;
    ret (tmp_output w)
  else
    assign "final_output_path" final_audio_path ;;
    ret final_audio_path.

(** Lines 169-186. *)
Definition present_block (filename : string) (audio_streams : list info)
    (index_chosen : nat) (final_output_path : string) : M unit :=
  emit (UiSuccess "Audio extracted successfully!") ;;
  let* selected_stream :=
    match audio_streams !! index_chosen with
    | Some s => ret s
    | None => raise "list index out of range"
    end in
  emit (UiInfo ("Extracted audio: " +:+ py_format w (language selected_stream)
                +:+ " (" +:+ py_format w (codec selected_stream)
                +:+ ", " +:+ py_format w (channels selected_stream) +:+ " channels)")) ;;
  emit (UiAudio final_output_path ("audio/" +:+ format_str (output_format w))) ;;
  let language_suffix :=
    if is_unknown (language selected_stream) then EmptyString
    else "_" +:+ py_format w (language selected_stream) in
  emit (CallOpen final_output_path) ;;
  attempt (open_rb w final_output_path) ;;
  emit (UiDownload ("Download Audio (" +:+ format_upper (output_format w) +:+ ")")
          final_output_path
          (path_stem w filename +:+ language_suffix +:+ "." +:+ format_str (output_format w))
          ("audio/" +:+ format_str (output_format w))).

(** Lines 142-186: the body of the [try]. *)
Definition extraction_body (filename video_path : string) (audio_streams : list info)
    (index_chosen : nat) : M unit :=
  create_file (tmp_audio w) ;;
  let* ok := extract_audio_track video_path index_chosen (tmp_audio w) in
  if ok then
    let audio_path := tmp_audio w in
    assign "audio_path" audio_path ;;
    let* final_audio_path :=
      if enhance_audio w then enhancement_block audio_path
      else (assign "final_audio_path" audio_path ;; ret audio_path) in
    let* final_output_path := conversion_block final_audio_path in
    present_block filename audio_streams index_chosen final_output_path
  else ret tt.

(** Lines 193-199: no name [video] is ever bound, so the guard is false
    unless the namespace was tampered with; closing the handles of a path
    string would raise and be reported as a warning. *)
Definition close_video_handles : M unit :=
  let* names := get_locals in
  if bool_decide (is_Some (names !! "video")) then
    emit (UiWarning "Warning during video cleanup: 'str' object has no attribute 'reader'")
  else ret tt.

Definition cleanup_names : list string :=
  ["video_path"; "audio_path"; "final_audio_path"; "final_output_path"].

(** Lines 203-207 for one name. *)
Definition cleanup_one (path_var : string) : M unit :=
  let* names := get_locals in
  match names !! path_var with
  | None => ret tt
  | Some path =>
      let* present := path_exists path in
      if present then
        try_except
          (emit (CallUnlink path) ;;
           attempt (unlink w path) ;;
           remove_file path)
          (fun unlink_err =>
             emit (UiWarning ("Could not delete " +:+ path_var +:+ ": " +:+ unlink_err)))
      else ret tt
  end.

(** Lines 191-207: the [finally] block. *)
Definition cleanup : M unit :=
  close_video_handles ;;
  for_each cleanup_names cleanup_one.

(** Lines 112-207: everything after the probe. *)
Definition track_workflow (filename video_path : string) (audio_streams : list info)
  : M unit :=
  match audio_streams with
  | [] => emit (UiError "No audio tracks found in the video file.")
  | _ :: _ =>
      emit (UiSubheader "Available Audio Tracks") ;;
      let* index_chosen := lift (selected_index audio_streams) in
      if button_pressed w then
        emit (UiSpinner "Extracting audio...") ;;
        try_finally
          (try_except
             (extraction_body filename video_path audio_streams index_chosen)
             (fun e => emit (UiError ("Error extracting audio: " +:+ e))))
          cleanup
      else ret tt
  end.

(** Lines 90-210. *)
Definition session : M unit :=
  match uploaded_file w with
  | None => emit (UiInfo "Please upload a video file to get started")
  | Some (filename, size) =>
      emit (UiWrite filename size) ;;
      emit UiVideo ;;
      create_file (tmp_video w) ;;
      let video_path := tmp_video w in
      assign "video_path" video_path ;;
      emit (UiSpinner "Analyzing video audio tracks...") ;;
      let* audio_streams := get_audio_streams video_path in
      track_workflow filename video_path audio_streams
  end.

End Script.

(** The state a whole run ends in. *)
Definition run (w : world) : state := snd (session w initial_state).

(** ** Vocabulary for statements about runs *)

(** [st] with [evs] appended to its log. *)
Definition add_log (st : state) (evs : list event) : state :=
  {| fs := fs st; log := log st ++ evs; locals := locals st |}.

Definition is_ffmpeg_call (ev : event) : bool :=
  match ev with CallFfmpeg _ => true | _ => false end.

Definition is_unlink_call (ev : event) : bool :=
  match ev with CallUnlink _ => true | _ => false end.

Definition not_ffmpeg_call (ev : event) : bool := negb (is_ffmpeg_call ev).

Definition is_error_banner (ev : event) : bool :=
  match ev with UiError _ => true | _ => false end.

Definition is_download_button (ev : event) : bool :=
  match ev with UiDownload _ _ _ _ => true | _ => false end.

Definition not_unlink_call (ev : event) : bool := negb (is_unlink_call ev).

(** What the [finally] block may add to the log. *)
Definition is_cleanup_event (ev : event) : bool :=
  match ev with CallUnlink _ | UiWarning _ => true | _ => false end.

(** [c] only appends to the log, and only events satisfying [P]. *)
Definition emits {A} (P : event -> bool) (c : M A) : Prop :=
  forall st, exists evs,
    log (snd (c st)) = log st ++ evs /\ forallb P evs = true.

(** [c] touches nothing but the log, and neither its result nor what it
    appends depends on the state it starts from. *)
Definition log_only {A} (c : M A) : Prop :=
  exists r evs, forall st, c st = (r, add_log st evs).

(** ffprobe exited non-zero, or its output did not parse. *)
Definition probe_failed (w : world) (video_path : string) : bool :=
  match run_ffprobe w (ffprobe_cmd video_path) with
  | Ok (returncode, stdout, _) =>
      negb (returncode =? 0)%Z ||
      match json_loads w stdout with Raised _ => true | Ok _ => false end
  | Raised _ => false
  end.

(** The [tags] entry, when present, is a JSON object. *)
Definition tags_usable (d : gmap string pyval) : bool :=
  match d !! "tags" with
  | None | Some (PDict _) => true
  | Some _ => false
  end.

(** [key] is missing from the [tags] object, or there is no such object. *)
Definition tag_absent (d : gmap string pyval) (key : string) : Prop :=
  d !! "tags" = None \/ exists t, d !! "tags" = Some (PDict t) /\ t !! key = None.

(** The state in which the probe starts: the upload has been written to
    its temporary file and announced. *)
Definition uploaded_state (w : world) (filename : string) (size : Z) : state :=
  {| fs := {[tmp_video w]} ∪ ∅;
     log := [UiWrite filename size; UiVideo; UiSpinner "Analyzing video audio tracks..."];
     locals := <["video_path" := tmp_video w]> ∅ |}.

(** The track list the probe returns for the uploaded file. *)
Definition probed (w : world) : outcome (list info) :=
  fst (get_audio_streams w (tmp_video w) initial_state).

(** ** Concrete scenarios *)

Definition demo_format (v : pyval) : string :=
  match v with
  | PNone => "None"
  | PBool true => "True"
  | PBool false => "False"
  | PInt z => dec (Z.to_nat z)
  | PFloat t => t
  | PStr s => s
  | _ => "..."
  end.

(** An AAC stereo stream tagged English, as ffprobe reports it. *)
Definition stream_eng : gmap string pyval :=
  {[ "index" := PInt 1; "codec_name" := PStr "aac"; "sample_rate" := PStr "48000";
     "channels" := PInt 2; "tags" := PDict {[ "language" := PStr "eng" ]} ]}.

(** An entry that carries nothing but its codec. *)
Definition stream_bare : gmap string pyval := {[ "codec_name" := PStr "aac" ]}.

(** The descriptor the prober builds for [stream_eng]. *)
Definition describe_default : info :=
  {| index := PInt 1; codec := PStr "aac"; sample_rate := PStr "48000";
     channels := PInt 2; duration := unknown; bit_rate := unknown;
     language := PStr "eng"; title := unknown |}.

(** 0.5, 0.25, -0.5 and 0 as binary32 values. *)
Definition f32_half : spec_float := S754_finite false 8388608 (-24).
Definition f32_quarter : spec_float := S754_finite false 8388608 (-25).
Definition tone : list spec_float :=
  [f32_half; f32_quarter; SFopp f32_half; S754_zero false].

Definition silence : list spec_float :=
  [S754_zero false; S754_zero false; S754_zero false].

(** [tone] after pre-emphasis, and after peak normalisation. *)
Definition tone_emphasised : list spec_float :=
  Eval cbv in match preemphasis tone with Ok y => y | Raised _ => [] end.

Definition tone_enhanced : list spec_float :=
  Eval cbv in match peak_normalize tone_emphasised with Ok y => y | Raised _ => [] end.

(** A unit impulse. *)
Definition impulse : list spec_float := [S754_zero false; f32_one; S754_zero false].

(** A world in which every tool succeeds: [streams] is what ffprobe lists,
    [returncode] and [stderr] what ffmpeg returns, [samples] what the
    extracted WAV holds. *)
Definition demo_world (streams : list pyval) (enhance : bool) (fmt : format)
    (picked : option nat) (returncode : Z) (stderr : string)
    (samples : list spec_float) : world :=
  {| uploaded_file := Some ("clip.mp4", 1048576%Z);
     enhance_audio := enhance;
     output_format := fmt;
     selection := picked;
     button_pressed := true;
     tmp_video := "/tmp/tmpvideo01.mp4";
     tmp_audio := "/tmp/tmpaudio01.wav";
     tmp_output := "/tmp/tmpoutput1." +:+ format_str fmt;
     run_ffprobe := fun _ => Ok (0%Z, "{...}", EmptyString);
     json_loads := fun _ => Ok (PDict {[ "streams" := PList streams ]});
     run_ffmpeg := fun _ => Ok (returncode, String.list_byte_of_string stderr);
     decode := fun bytes => Ok (String.string_of_list_byte bytes);
     py_format := demo_format;
     librosa_load := fun _ => Ok (samples, 44100%Z);
     sf_write := fun _ _ _ => None;
     from_file := fun _ => None;
     export := fun _ _ => None;
     open_rb := fun _ => None;
     unlink := fun _ => None;
     path_stem := fun _ => "clip" |}.

(** [w] with an ffprobe that exits with [returncode] and prints [stderr]. *)
Definition with_ffprobe_exit (w : world) (returncode : Z) (stderr : string) : world :=
  {| uploaded_file := uploaded_file w;
     enhance_audio := enhance_audio w;
     output_format := output_format w;
     selection := selection w;
     button_pressed := button_pressed w;
     tmp_video := tmp_video w;
     tmp_audio := tmp_audio w;
     tmp_output := tmp_output w;
     run_ffprobe := fun _ => Ok (returncode, EmptyString, stderr);
     json_loads := json_loads w;
     run_ffmpeg := run_ffmpeg w;
     decode := decode w;
     py_format := py_format w;
     librosa_load := librosa_load w;
     sf_write := sf_write w;
     from_file := from_file w;
     export := export w;
     open_rb := open_rb w;
     unlink := unlink w;
     path_stem := path_stem w |}.

(** One English track, defaults untouched, everything succeeds. *)
Definition world_ok : world :=
  demo_world [PDict stream_eng] true mp3 None 0 EmptyString tone.

(** ffprobe rejects the file. *)
Definition world_probe_fails : world :=
  with_ffprobe_exit world_ok 1 "moov atom not found".

(** A video without audio streams. *)
Definition world_no_audio : world :=
  demo_world [] true mp3 None 0 EmptyString tone.

(** ffmpeg exits with status 1. *)
Definition world_ffmpeg_fails : world :=
  demo_world [PDict stream_eng] true mp3 None 1 "Stream map matches no streams." tone.

(** ffmpeg exits with status 1 and writes a byte sequence to stderr that is
    not valid UTF-8. *)
Definition world_ffmpeg_garbled : world :=
  {| uploaded_file := uploaded_file world_ffmpeg_fails;
     enhance_audio := enhance_audio world_ffmpeg_fails;
     output_format := output_format world_ffmpeg_fails;
     selection := selection world_ffmpeg_fails;
     button_pressed := button_pressed world_ffmpeg_fails;
     tmp_video := tmp_video world_ffmpeg_fails;
     tmp_audio := tmp_audio world_ffmpeg_fails;
     tmp_output := tmp_output world_ffmpeg_fails;
     run_ffprobe := run_ffprobe world_ffmpeg_fails;
     json_loads := json_loads world_ffmpeg_fails;
     run_ffmpeg := fun _ => Ok (1%Z, [Byte.xe9]);
     decode := fun _ =>
       Raised "'utf-8' codec can't decode byte 0xe9 in position 0: unexpected end of data";
     py_format := py_format world_ffmpeg_fails;
     librosa_load := librosa_load world_ffmpeg_fails;
     sf_write := sf_write world_ffmpeg_fails;
     from_file := from_file world_ffmpeg_fails;
     export := export world_ffmpeg_fails;
     open_rb := open_rb world_ffmpeg_fails;
     unlink := unlink world_ffmpeg_fails;
     path_stem := path_stem world_ffmpeg_fails |}.

(** Two tracks with the same tags, codec and channel count; the user picks
    the second one. *)
Definition world_twins : world :=
  demo_world [PDict stream_eng; PDict stream_eng] true mp3 (Some 1) 0 EmptyString tone.

(** A silent track, enhancement on. *)
Definition world_silent : world :=
  demo_world [PDict stream_eng] true mp3 None 0 EmptyString silence.

(** Output format "wav", enhancement off. *)
Definition world_wav : world :=
  demo_world [PDict stream_eng] false wav None 0 EmptyString tone.

(** ** Further vocabulary and scenarios *)

(** A stream entry the prober can describe: an object whose [tags], when
    present, is an object too. *)
Definition well_formed_entry (item : pyval) : bool :=
  match item with
  | PDict d => tags_usable d
  | _ => false
  end.

(** The widgets that hand a result to the user. *)
Definition is_offer (ev : event) : bool :=
  match ev with
  | UiSuccess _ | UiAudio _ _ | UiDownload _ _ _ _ => true
  | _ => false
  end.

(** What the prober may add to the log. *)
Definition is_probe_event (ev : event) : bool :=
  match ev with CallFfprobe _ | UiError _ => true | _ => false end.

Definition not_offer (ev : event) : bool := negb (is_offer ev).

(** [c] removes no file. *)
Definition keeps_files {A} (c : M A) : Prop :=
  forall st, fs st ⊆ fs (snd (c st)).

(** Whether ffmpeg ran and exited with status 0. *)
Definition ffmpeg_succeeded (w : world) (cmd : list string) : bool :=
  match run_ffmpeg w cmd with
  | Ok (returncode, _) => (returncode =? 0)%Z
  | Raised _ => false
  end.

(** Whether the external call recorded by [ev] failed: a non-zero exit
    status or a failure to launch for ffprobe and ffmpeg, an exception for
    the library calls. *)
Definition call_failed (w : world) (ev : event) : bool :=
  match ev with
  | CallFfprobe cmd =>
      match run_ffprobe w cmd with
      | Ok (returncode, _, _) => negb (returncode =? 0)%Z
      | Raised _ => true
      end
  | CallFfmpeg cmd => negb (ffmpeg_succeeded w cmd)
  | CallLoad path =>
      match librosa_load w path with Ok _ => false | Raised _ => true end
  | CallSfWrite path y sr =>
      match sf_write w path y sr with None => false | Some _ => true end
  | CallFromFile path =>
      match from_file w path with None => false | Some _ => true end
  | CallExport path _ =>
      match export w path (output_format w) with None => false | Some _ => true end
  | CallOpen path =>
      match open_rb w path with None => false | Some _ => true end
  | CallUnlink path =>
      match unlink w path with None => false | Some _ => true end
  | _ => false
  end.

(** An error banner or a warning. *)
Definition is_report (ev : event) : bool :=
  match ev with UiError _ | UiWarning _ => true | _ => false end.

(** Every failed call in [evs] is followed, later in [evs], by an error
    banner or a warning. *)
Fixpoint answered (w : world) (evs : list event) : bool :=
  match evs with
  | [] => true
  | ev :: rest => (negb (call_failed w ev) || existsb is_report rest) && answered w rest
  end.


(** [w] with another button state, JSON decoder, loader, exporter and
    unlink behaviour. *)
Definition world_with (w : world) (pressed : bool) (loads : string -> outcome pyval)
    (load : string -> outcome (list spec_float * Z))
    (exports : string -> format -> option string)
    (unlinks : string -> option string) : world :=
  {| uploaded_file := uploaded_file w;
     enhance_audio := enhance_audio w;
     output_format := output_format w;
     selection := selection w;
     button_pressed := pressed;
     tmp_video := tmp_video w;
     tmp_audio := tmp_audio w;
     tmp_output := tmp_output w;
     run_ffprobe := run_ffprobe w;
     json_loads := loads;
     run_ffmpeg := run_ffmpeg w;
     decode := decode w;
     py_format := py_format w;
     librosa_load := load;
     sf_write := sf_write w;
     from_file := from_file w;
     export := exports;
     open_rb := open_rb w;
     unlink := unlinks;
     path_stem := path_stem w |}.

(** The user has not pressed "Extract Audio". *)
Definition world_idle : world :=
  world_with world_ok false (json_loads world_ok) (librosa_load world_ok)
    (export world_ok) (unlink world_ok).

(** ffprobe lists a good entry and one that is a bare number. *)
Definition world_bad_entry : world :=
  world_with world_ok true
    (fun _ => Ok (PDict {[ "streams" := PList [PDict stream_eng; PInt 7] ]}))
    (librosa_load world_ok) (export world_ok) (unlink world_ok).

(** librosa cannot read the extracted file. *)
Definition world_load_fails : world :=
  world_with world_ok true (json_loads world_ok)
    (fun _ => Raised "Error opening file: Format not recognised.")
    (export world_ok) (unlink world_ok).

(** pydub's encoder fails; enhancement is off. *)
Definition world_export_fails : world :=
  world_with (demo_world [PDict stream_eng] false mp3 None 0 EmptyString tone) true
    (json_loads world_ok) (librosa_load world_ok)
    (fun _ _ => Some "Encoding failed") (unlink world_ok).

(** The file system refuses every unlink. *)
Definition world_unlink_fails : world :=
  world_with world_ok true (json_loads world_ok) (librosa_load world_ok)
    (export world_ok) (fun _ => Some "Permission denied").

(** A namespace right before the [finally] block of a failed enhancement:
    the upload and the raw WAV exist and are bound. *)
Definition state_before_cleanup : state :=
  {| fs := {[ "/tmp/tmpvideo01.mp4"; "/tmp/tmpaudio01.wav"; "/tmp/stray.tmp" ]};
     log := [];
     locals := {[ "video_path" := "/tmp/tmpvideo01.mp4";
                  "audio_path" := "/tmp/tmpaudio01.wav" ]} |}.

(** The extracted WAV cannot be opened for the download button; output
    format "wav", enhancement off. *)
Definition world_open_fails : world :=
  {| uploaded_file := uploaded_file world_wav;
     enhance_audio := enhance_audio world_wav;
     output_format := output_format world_wav;
     selection := selection world_wav;
     button_pressed := button_pressed world_wav;
     tmp_video := tmp_video world_wav;
     tmp_audio := tmp_audio world_wav;
     tmp_output := tmp_output world_wav;
     run_ffprobe := run_ffprobe world_wav;
     json_loads := json_loads world_wav;
     run_ffmpeg := run_ffmpeg world_wav;
     decode := decode world_wav;
     py_format := py_format world_wav;
     librosa_load := librosa_load world_wav;
     sf_write := sf_write world_wav;
     from_file := from_file world_wav;
     export := export world_wav;
     open_rb := fun _ => Some "[Errno 24] Too many open files";
     unlink := unlink world_wav;
     path_stem := path_stem world_wav |}.

(* ===================================================================== *)
(** * Part II: lemmas                                                     *)
(* ===================================================================== *)

(** ** binary32 division by the peak

    [SFdiv] rounds the exact quotient to nearest-even.  For two well-formed
    finite values with [|x| <= |p|] the rounded quotient has magnitude at
    most 1, and it is exactly 1 when the magnitudes coincide. *)

Section Binary32.
Local Open Scope Z_scope.

Lemma digits2_pos_bounds m :
  2 ^ (Z.pos (digits2_pos m) - 1) <= Z.pos m < 2 ^ Z.pos (digits2_pos m).
Proof.
  induction m as [p IH|p IH|]; cbn [digits2_pos].
  - rewrite Pos2Z.inj_succ, Z.pow_succ_r by lia.
    replace (Z.succ (Z.pos (digits2_pos p)) - 1) with (Z.succ (Z.pos (digits2_pos p) - 1)) by lia.
    rewrite Z.pow_succ_r by lia. lia.
  - rewrite Pos2Z.inj_succ, Z.pow_succ_r by lia.
    replace (Z.succ (Z.pos (digits2_pos p)) - 1) with (Z.succ (Z.pos (digits2_pos p) - 1)) by lia.
    rewrite Z.pow_succ_r by lia. lia.
  - cbn. lia.
Qed.

Lemma Zdigits2_bounds q : 0 < q -> 2 ^ (Zdigits2 q - 1) <= q < 2 ^ Zdigits2 q.
Proof. destruct q; try lia. intros _. apply digits2_pos_bounds. Qed.

Lemma Zdigits2_nonneg q : 0 <= Zdigits2 q.
Proof. destruct q; cbn; lia. Qed.

Lemma Zdigits2_le_of_lt q a : 0 <= a -> 0 <= q < 2 ^ a -> Zdigits2 q <= a.
Proof.
  intros Ha [H0 Hq]. destruct (Z.eq_dec q 0) as [->|Hne]; [cbn; lia|].
  destruct (Zdigits2_bounds q ltac:(lia)) as [Hlo _].
  destruct (Z_le_gt_dec (Zdigits2 q) a) as [|Hgt]; [assumption|exfalso].
  assert (2 ^ a <= 2 ^ (Zdigits2 q - 1)) by (apply Z.pow_le_mono_r; lia). lia.
Qed.

Lemma Zdigits2_pow2 a : 0 <= a -> Zdigits2 (2 ^ a) = a + 1.
Proof.
  intros Ha. assert (0 < 2 ^ a) by (apply Z.pow_pos_nonneg; lia).
  destruct (Zdigits2_bounds (2 ^ a) ltac:(lia)) as [Hlo Hhi].
  assert (Zdigits2 (2 ^ a) - 1 <= a).
  { apply (Z.pow_le_mono_r_iff 2); lia. }
  assert (a < Zdigits2 (2 ^ a)).
  { apply (Z.pow_lt_mono_r_iff 2); try lia. apply Zdigits2_nonneg. }
  lia.
Qed.

Lemma shr_1_m mrs : 0 <= shr_m mrs -> shr_m (shr_1 mrs) = shr_m mrs / 2.
Proof.
  destruct mrs as [m r s]; cbn [shr_m shr_1]. intros Hm.
  destruct m as [|[p|p|]|p]; cbn [shr_m]; try lia.
  - reflexivity.
  - rewrite (Pos2Z.inj_xI p). apply Z.div_unique with (r := 1); lia.
  - rewrite (Pos2Z.inj_xO p). apply Z.div_unique with (r := 0); lia.
  - reflexivity.
Qed.

Lemma pow2_xI p : 2 ^ Z.pos p~1 = 2 * (2 ^ Z.pos p * 2 ^ Z.pos p).
Proof.
  rewrite (Pos2Z.inj_xI p), Z.add_comm, Z.pow_add_r, Z.pow_1_r by lia.
  replace (2 * Z.pos p) with (Z.pos p + Z.pos p) by lia.
  rewrite Z.pow_add_r by lia. reflexivity.
Qed.

Lemma pow2_xO p : 2 ^ Z.pos p~0 = 2 ^ Z.pos p * 2 ^ Z.pos p.
Proof.
  rewrite (Pos2Z.inj_xO p).
  replace (2 * Z.pos p) with (Z.pos p + Z.pos p) by lia.
  rewrite Z.pow_add_r by lia. reflexivity.
Qed.

Lemma shr_iter_m p : forall mrs, 0 <= shr_m mrs ->
  shr_m (SpecFloat.iter_pos shr_1 p mrs) = shr_m mrs / 2 ^ Z.pos p.
Proof.
  assert (Hnn : forall mrs, 0 <= shr_m mrs -> 0 <= shr_m (shr_1 mrs)).
  { intros mrs H. rewrite shr_1_m by assumption. apply Z.div_pos; lia. }
  induction p as [p IH|p IH|]; intros mrs Hm; cbn [SpecFloat.iter_pos].
  - assert (0 <= shr_m (SpecFloat.iter_pos shr_1 p (shr_1 mrs))).
    { rewrite IH by auto. apply Z.div_pos; [auto|]. apply Z.pow_pos_nonneg; lia. }
    rewrite IH, IH, shr_1_m by auto.
    rewrite !Z.div_div by (try apply Z.pow_pos_nonneg; lia).
    rewrite pow2_xI. reflexivity.
  - assert (0 <= shr_m (SpecFloat.iter_pos shr_1 p mrs)).
    { rewrite IH by auto. apply Z.div_pos; [auto|]. apply Z.pow_pos_nonneg; lia. }
    rewrite IH, IH by auto.
    rewrite !Z.div_div by (try apply Z.pow_pos_nonneg; lia).
    rewrite pow2_xO. reflexivity.
  - rewrite shr_1_m by auto. reflexivity.
Qed.

Lemma shr_1_exact k : 0 <= k ->
  shr_1 (Build_shr_record (2 * k) false false) = Build_shr_record k false false.
Proof. intros Hk. destruct k as [|k|k]; try lia; reflexivity. Qed.

Lemma shr_iter_exact p : forall k, 0 <= k ->
  SpecFloat.iter_pos shr_1 p (Build_shr_record (k * 2 ^ Z.pos p) false false)
  = Build_shr_record k false false.
Proof.
  induction p as [p IH|p IH|]; intros k Hk; cbn [SpecFloat.iter_pos].
  - rewrite pow2_xI.
    replace (k * (2 * (2 ^ Z.pos p * 2 ^ Z.pos p)))
      with (2 * (k * 2 ^ Z.pos p * 2 ^ Z.pos p)) by lia.
    assert (0 < 2 ^ Z.pos p) by (apply Z.pow_pos_nonneg; lia).
    rewrite shr_1_exact by nia.
    rewrite IH by nia. apply IH; assumption.
  - rewrite pow2_xO.
    assert (0 < 2 ^ Z.pos p) by (apply Z.pow_pos_nonneg; lia).
    replace (k * (2 ^ Z.pos p * 2 ^ Z.pos p)) with (k * 2 ^ Z.pos p * 2 ^ Z.pos p) by lia.
    rewrite IH by nia. apply IH; assumption.
  - replace (k * 2 ^ 1) with (2 * k) by lia. apply shr_1_exact; assumption.
Qed.

Lemma round_nearest_even_bounds m l :
  m <= round_nearest_even m l <= m + 1.
Proof.
  destruct l as [|[| |]]; cbn [round_nearest_even]; try lia.
  destruct (Z.even m); lia.
Qed.

Lemma shr_record_of_loc_m m l : shr_m (shr_record_of_loc m l) = m.
Proof. destruct l as [|[| |]]; reflexivity. Qed.

(* first component of shr_fexp: mantissa and exponent after alignment *)
Lemma shr_fexp_spec q e l : 0 <= q ->
  snd (shr_fexp prec emax q e l) = Z.max e (fexp prec emax (Zdigits2 q + e)) /\
  shr_m (fst (shr_fexp prec emax q e l)) = q / 2 ^ (snd (shr_fexp prec emax q e l) - e).
Proof.
  intros Hq. unfold shr_fexp, shr.
  destruct (fexp prec emax (Zdigits2 q + e) - e) as [|p|p] eqn:Hn; cbn [fst snd].
  - split; [lia|]. rewrite shr_record_of_loc_m.
    rewrite Z.sub_diag, Z.pow_0_r, Z.div_1_r. reflexivity.
  - split; [lia|].
    rewrite shr_iter_m by (rewrite shr_record_of_loc_m; assumption).
    rewrite shr_record_of_loc_m. f_equal. f_equal. lia.
  - split; [lia|]. rewrite shr_record_of_loc_m.
    rewrite Z.sub_diag, Z.pow_0_r, Z.div_1_r. reflexivity.
Qed.

Lemma fexp32 x : fexp prec emax x = Z.max (x - 24) (-149).
Proof. reflexivity. Qed.

Lemma leb_one_of_exp s m e :
  e < -23 \/ (e = -23 /\ Z.pos m <= 8388608) ->
  SFleb (SFabs (S754_finite s m e)) f32_one = true.
Proof.
  intros H. unfold SFleb, SFabs, f32_one, SFcompare.
  destruct H as [H|[-> H]].
  - rewrite (proj2 (Z.compare_lt_iff e (-23)) H). reflexivity.
  - rewrite Z.compare_refl. rewrite Pos.compare_cont_spec. cbn [Pos.switch_Eq].
    destruct (Pos.compare_spec m 8388608); try reflexivity. lia.
Qed.

Lemma binary_round_aux_lt_pow s q e l :
  e <= -24 -> 0 <= q < 2 ^ (- e) ->
  SFleb (SFabs (binary_round_aux prec emax s q e l)) f32_one = true.
Proof.
  intros He [Hq0 Hq]. unfold binary_round_aux.
  destruct (shr_fexp_spec q e l Hq0) as [He1 Hm1].
  destruct (shr_fexp prec emax q e l) as [mrs1 e1]. cbn [fst snd] in He1, Hm1.
  set (m1r := round_nearest_even (shr_m mrs1) (loc_of_shr_record mrs1)).
  pose proof (round_nearest_even_bounds (shr_m mrs1) (loc_of_shr_record mrs1)) as Hr.
  fold m1r in Hr.
  pose proof (Zdigits2_le_of_lt q (- e) ltac:(lia) (conj Hq0 Hq)) as Hd.
  pose proof (Zdigits2_nonneg q) as Hd0.
  rewrite fexp32 in He1.
  assert (He1' : e <= e1 <= -24) by lia.
  assert (Hp : 0 < 2 ^ (e1 - e)) by (apply Z.pow_pos_nonneg; lia).
  assert (Hm1lo : 0 <= shr_m mrs1) by (rewrite Hm1; apply Z.div_pos; lia).
  assert (Hm1hi : shr_m mrs1 < 2 ^ (- e1)).
  { rewrite Hm1. apply Z.div_lt_upper_bound; [assumption|].
    rewrite <- Z.pow_add_r by lia. replace (e1 - e + - e1) with (- e) by lia. assumption. }
  assert (Hr0 : 0 <= m1r) by lia.
  destruct (shr_fexp_spec m1r e1 loc_Exact Hr0) as [He2 Hm2].
  destruct (shr_fexp prec emax m1r e1 loc_Exact) as [mrs2 e2]. cbn [fst snd] in He2, Hm2.
  rewrite fexp32 in He2.
  assert (Hp1 : 0 < 2 ^ (- e1)) by (apply Z.pow_pos_nonneg; lia).
  destruct (Z_lt_le_dec m1r (2 ^ (- e1))) as [Hlt|Hge].
  - pose proof (Zdigits2_le_of_lt m1r (- e1) ltac:(lia) (conj Hr0 Hlt)) as Hd'.
    pose proof (Zdigits2_nonneg m1r).
    assert (e2 <= -24) by lia.
    assert (0 <= shr_m mrs2).
    { rewrite Hm2. apply Z.div_pos; [lia|]. apply Z.pow_pos_nonneg; lia. }
    destruct (shr_m mrs2) as [|m|m]; [reflexivity| |lia].
    replace (e2 <=? emax - prec) with true by (symmetry; apply Z.leb_le; unfold emax, prec; lia).
    apply leb_one_of_exp. lia.
  - assert (Heq : m1r = 2 ^ (- e1)) by lia.
    rewrite Heq, Zdigits2_pow2 in He2 by lia.
    assert (He2' : e2 = -23) by lia.
    rewrite Heq, He2' in Hm2.
    replace (- e1) with (23 + (-23 - e1)) in Hm2 by lia.
    rewrite Z.pow_add_r, Z.div_mul in Hm2 by (try apply Z.pow_nonzero; lia).
    rewrite Hm2. change (2 ^ 23) with (Z.pos 8388608).
    cbv iota. clear He2. subst e2. reflexivity.
Qed.

Lemma binary_round_aux_pow s e :
  e <= -24 ->
  binary_round_aux prec emax s (2 ^ (- e)) e loc_Exact = S754_finite s 8388608 (-23).
Proof.
  intros He. unfold binary_round_aux, shr_fexp at 1.
  rewrite Zdigits2_pow2 by lia. rewrite fexp32.
  replace (Z.max (- e + 1 + e - 24) (-149) - e) with (-23 - e) by lia.
  unfold shr. destruct (-23 - e) as [|p|p] eqn:Hn; try lia.
  cbn [shr_record_of_loc].
  replace (2 ^ (- e)) with (2 ^ 23 * 2 ^ Z.pos p).
  2:{ rewrite <- Z.pow_add_r by lia. f_equal. lia. }
  rewrite shr_iter_exact by lia. cbn [shr_m loc_of_shr_record round_nearest_even].
  replace (e + Z.pos p) with (-23) by lia. reflexivity.
Qed.

Lemma bounded_canonical m e :
  bounded prec emax m e = true -> Z.max (Z.pos (digits2_pos m) + e - 24) (-149) = e.
Proof.
  unfold bounded, canonical_mantissa. intros H.
  apply andb_true_iff in H as [H _]. apply Z.eqb_eq in H. rewrite fexp32 in H. exact H.
Qed.

Lemma SFleb_pos_finite mx ex my ey :
  SFleb (S754_finite false mx ex) (S754_finite false my ey) = true ->
  ex < ey \/ (ex = ey /\ Z.pos mx <= Z.pos my).
Proof.
  unfold SFleb, SFcompare.
  destruct (Z.compare_spec ex ey) as [->|Hlt|Hgt]; [|auto|discriminate].
  rewrite Pos.compare_cont_spec. cbn [Pos.switch_Eq].
  destruct (Pos.compare_spec mx my); try discriminate; intros _; right; split; lia.
Qed.

Lemma new_location_zero n : new_location n 0 = loc_Exact.
Proof. unfold new_location, new_location_even, new_location_odd. destruct (Z.even n); reflexivity. Qed.

Lemma SFdiv_core_bounds mx ex my ey :
  bounded prec emax mx ex = true -> bounded prec emax my ey = true ->
  SFleb (S754_finite false mx ex) (S754_finite false my ey) = true ->
  exists q e l,
    SFdiv_core_binary prec emax (Z.pos mx) ex (Z.pos my) ey = (q, e, l) /\
    e <= -24 /\ 0 <= q <= 2 ^ (- e) /\ (q = 2 ^ (- e) -> l = loc_Exact).
Proof.
  intros Hbx Hby Hle.
  apply bounded_canonical in Hbx, Hby. apply SFleb_pos_finite in Hle.
  pose proof (digits2_pos_bounds mx) as [Hxlo Hxhi].
  pose proof (digits2_pos_bounds my) as [Hylo Hyhi].
  set (d1 := Z.pos (digits2_pos mx)) in *. set (d2 := Z.pos (digits2_pos my)) in *.
  assert (Hd1 : 0 < d1) by (unfold d1; lia). assert (Hd2 : 0 < d2) by (unfold d2; lia).
  assert (HE : d1 + ex <= d2 + ey).
  { destruct Hle as [Hlt|[-> Hm]]; [lia|].
    assert (d1 - 1 < d2); [|lia]. apply (Z.pow_lt_mono_r_iff 2); lia. }
  unfold SFdiv_core_binary. cbn [Zdigits2]. fold d1 d2. rewrite fexp32.
  set (e' := Z.min (Z.max (d1 + ex - (d2 + ey) - 24) (-149)) (ex - ey)).
  assert (He' : e' <= -24) by (unfold e'; lia).
  assert (Hs : 0 <= ex - ey - e') by (unfold e'; lia).
  set (s := ex - ey - e') in *.
  set (m' := match s with Z0 => Z.pos mx | Z.pos _ => Z.shiftl (Z.pos mx) s | Z.neg _ => 0 end).
  assert (Hm' : m' = Z.pos mx * 2 ^ s).
  { unfold m'. destruct s as [|p|p] eqn:Es; [rewrite Z.pow_0_r; lia| |lia].
    rewrite Z.shiftl_mul_pow2 by lia. reflexivity. }
  clearbody m'.
  assert (Hps : 0 < 2 ^ s) by (apply Z.pow_pos_nonneg; lia).
  assert (Hval : m' <= Z.pos my * 2 ^ (- e')).
  { rewrite Hm'. destruct Hle as [Hlt|[Heq Hm]].
    - replace (- e') with (s + (ey - ex)) by (unfold s; lia).
      rewrite Z.pow_add_r by lia.
      assert (d2 = 24) by lia. assert (d1 <= 24) by lia.
      assert (Z.pos mx < 2 ^ 24).
      { apply Z.lt_le_trans with (1 := Hxhi). apply Z.pow_le_mono_r; lia. }
      assert (2 ^ 23 <= Z.pos my) by (replace 23 with (d2 - 1) by lia; assumption).
      assert (2 ^ 1 <= 2 ^ (ey - ex)) by (apply Z.pow_le_mono_r; lia).
      apply Z.le_trans with (2 ^ 24 * 2 ^ s);
        [apply Z.mul_le_mono_nonneg_r; lia|].
      change (2 ^ 24) with (2 ^ 23 * 2 ^ 1).
      rewrite <- Z.mul_assoc.
      apply Z.mul_le_mono_nonneg; try lia.
      rewrite Z.mul_comm. apply Z.mul_le_mono_nonneg_l; lia.
    - replace (- e') with s by (unfold s; lia).
      apply Z.mul_le_mono_nonneg_r; lia. }
  pose proof (Z_div_mod m' (Z.pos my) ltac:(lia)) as Hdm.
  destruct (Z.div_eucl m' (Z.pos my)) as [q r]. destruct Hdm as [Hdm Hr].
  assert (HpT : 0 < 2 ^ (- e')) by (apply Z.pow_pos_nonneg; lia).
  exists q, e', (new_location (Z.pos my) r). split; [reflexivity|].
  split; [assumption|]. 
  assert (Hq0 : 0 <= q) by nia.
  assert (HqT : q <= 2 ^ (- e')) by nia.
  split; [lia|]. intros Hq. assert (r = 0) by nia. subst r. apply new_location_zero.
Qed.

Lemma SFdiv_finite_le_one sx mx ex sy my ey :
  bounded prec emax mx ex = true -> bounded prec emax my ey = true ->
  SFleb (S754_finite false mx ex) (S754_finite false my ey) = true ->
  SFleb (SFabs (SFdiv prec emax (S754_finite sx mx ex) (S754_finite sy my ey))) f32_one = true.
Proof.
  intros Hbx Hby Hle.
  destruct (SFdiv_core_bounds mx ex my ey Hbx Hby Hle) as (q & e & l & Hc & He & Hq & Hl).
  unfold SFdiv. rewrite Hc.
  destruct (Z.eq_dec q (2 ^ (- e))) as [Heq|Hne].
  - rewrite (Hl Heq), Heq, binary_round_aux_pow by assumption.
    apply leb_one_of_exp. right. split; [reflexivity|lia].
  - apply binary_round_aux_lt_pow; [assumption|lia].
Qed.

Lemma SFdiv_finite_self sx sy m e :
  bounded prec emax m e = true ->
  SFdiv prec emax (S754_finite sx m e) (S754_finite sy m e) = S754_finite (xorb sx sy) 8388608 (-23).
Proof.
  intros Hb.
  assert (Hle : SFleb (S754_finite false m e) (S754_finite false m e) = true).
  { unfold SFleb, SFcompare. rewrite Z.compare_refl, Pos.compare_cont_refl. reflexivity. }
  pose proof (SFdiv_core_bounds m e m e Hb Hb Hle) as (q & e' & l & Hc & He & Hq & Hl).
  unfold SFdiv. rewrite Hc.
  assert (Heq : q = 2 ^ (- e')).
  { revert Hc. unfold SFdiv_core_binary. rewrite Z.sub_diag.
    set (e0 := Z.min _ _).
    set (m' := match (_ : Z) with Z0 => Z.pos m | Z.pos _ => _ | Z.neg _ => 0 end).
    assert (Hm' : m' = Z.pos m * 2 ^ (- e0)).
    { unfold m'. unfold e0 in *. clear m'.
      rewrite Z.sub_diag, fexp32 in *.
      replace (0 - Z.min (Z.max (0 - 24) (-149)) 0) with 24 by lia.
      replace (- Z.min (Z.max (0 - 24) (-149)) 0) with 24 by lia.
      rewrite Z.shiftl_mul_pow2 by lia. reflexivity. }
    rewrite Hm'. pose proof (Z_div_mod (Z.pos m * 2 ^ (- e0)) (Z.pos m) ltac:(lia)) as Hdm.
    destruct (Z.div_eucl (Z.pos m * 2 ^ (- e0)) (Z.pos m)) as [q0 r0].
    intros H; inversion H; subst. nia. }
  rewrite (Hl Heq), Heq. apply binary_round_aux_pow. assumption.
Qed.
End Binary32.

(** ** Peak of a finite signal, and the peak after normalisation *)

Section Peak.

Lemma SFleb_nonneg_finite_iff mx ex my ey :
  SFleb (S754_finite false mx ex) (S754_finite false my ey) = true <->
  (ex < ey \/ (ex = ey /\ Z.pos mx <= Z.pos my))%Z.
Proof.
  split; [apply SFleb_pos_finite|].
  unfold SFleb, SFcompare. intros [Hlt|[-> Hm]].
  - rewrite (proj2 (Z.compare_lt_iff ex ey) Hlt). reflexivity.
  - rewrite Z.compare_refl, Pos.compare_cont_spec. cbn [Pos.switch_Eq].
    destruct (Pos.compare_spec mx my); try reflexivity. lia.
Qed.

Lemma nonneg32_not_nan a : nonneg32 a = true -> is_nan a = false.
Proof. destruct a as [[]|[]| |[] ? ?]; done. Qed.

Lemma SFleb_nonneg_refl a : nonneg32 a = true -> SFleb a a = true.
Proof.
  destruct a as [[]|[]| |[] m e]; try done. intros _.
  apply SFleb_nonneg_finite_iff. right. split; [done|lia].
Qed.

Lemma SFleb_nonneg_total a b :
  nonneg32 a = true -> nonneg32 b = true -> SFleb b a = false -> SFleb a b = true.
Proof.
  destruct a as [[]|[]| |[] ma ea]; try done;
    destruct b as [[]|[]| |[] mb eb]; try done; intros _ _ Hba.
  apply SFleb_nonneg_finite_iff.
  destruct (SFleb (S754_finite false mb eb) (S754_finite false ma ea)) eqn:E; [done|].
  assert (Hn : ~ (eb < ea \/ (eb = ea /\ Z.pos mb <= Z.pos ma))%Z).
  { intros H. apply SFleb_nonneg_finite_iff in H. congruence. }
  lia.
Qed.

Lemma SFleb_nonneg_trans a b c :
  nonneg32 a = true -> nonneg32 b = true -> nonneg32 c = true ->
  SFleb a b = true -> SFleb b c = true -> SFleb a c = true.
Proof.
  destruct a as [[]|[]| |[] ma ea]; try done;
    destruct b as [[]|[]| |[] mb eb]; try done;
    destruct c as [[]|[]| |[] mc ec]; try done; intros _ _ _.
  rewrite !SFleb_nonneg_finite_iff. lia.
Qed.

Lemma np_maximum_nonneg a b :
  nonneg32 a = true -> nonneg32 b = true ->
  (np_maximum a b = a /\ SFleb b a = true) \/ (np_maximum a b = b /\ SFleb a b = true).
Proof.
  intros Ha Hb. unfold np_maximum. rewrite (nonneg32_not_nan a Ha), orb_false_r.
  destruct (SFleb b a) eqn:E; [left; done|right].
  split; [done|]. by apply SFleb_nonneg_total.
Qed.

(** The running maximum is one of the values and dominates all of them. *)
Lemma fold_maximum_spec l : forall a,
  nonneg32 a = true -> Forall (fun v => nonneg32 v = true) l ->
  let m := fold_left np_maximum l a in
  m ∈ a :: l /\ nonneg32 m = true /\ Forall (fun v => SFleb v m = true) (a :: l).
Proof.
  induction l as [|v l IH]; intros a Ha Hl; cbn [fold_left].
  - split; [apply list_elem_of_here|]. split; [done|]. constructor; [|constructor].
    by apply SFleb_nonneg_refl.
  - inversion Hl as [|? ? Hv Hl']; subst.
    assert (Hm : nonneg32 (np_maximum a v) = true).
    { destruct (np_maximum_nonneg a v Ha Hv) as [[-> _]|[-> _]]; done. }
    destruct (IH (np_maximum a v) Hm Hl') as (Hin & Hnn & Hall).
    inversion Hall as [|? ? Hhd Htl]; subst.
    split; [|split; [done|]].
    + rewrite !elem_of_cons. apply elem_of_cons in Hin as [Hin|Hin]; [|tauto].
      rewrite Hin. destruct (np_maximum_nonneg a v Ha Hv) as [[E _]|[E _]]; tauto.
    + set (m := fold_left np_maximum l (np_maximum a v)) in *.
      destruct (np_maximum_nonneg a v Ha Hv) as [[E Hle]|[E Hle]]; rewrite E in Hhd.
      * constructor; [done|]. constructor; [|done].
        by apply (SFleb_nonneg_trans v a m).
      * constructor; [|constructor; done].
        by apply (SFleb_nonneg_trans a v m).
Qed.

Lemma SFleb_one_antisym v :
  SFleb v f32_one = true -> SFleb f32_one v = true -> v = f32_one.
Proof.
  destruct v as [[]|[]| |[] m e]; try done.
  unfold f32_one. rewrite !SFleb_nonneg_finite_iff. intros H1 H2.
  assert (e = (-23)%Z) by lia. assert (m = 8388608%positive) by lia. by subst.
Qed.

Lemma SFleb_one_not_nan v : SFleb v f32_one = true -> is_nan v = false.
Proof. by destruct v. Qed.

(** Once every value is at most 1 and 1 occurs, the maximum is 1. *)
Lemma fold_maximum_one l : forall a,
  SFleb a f32_one = true -> Forall (fun v => SFleb v f32_one = true) l ->
  a = f32_one \/ f32_one ∈ l ->
  fold_left np_maximum l a = f32_one.
Proof.
  induction l as [|v l IH]; intros a Ha Hl Hone; cbn [fold_left].
  - destruct Hone as [->|Hin]; [done|]. by apply elem_of_nil in Hin.
  - inversion Hl as [|? ? Hv Hl']; subst.
    unfold np_maximum at 2. rewrite (SFleb_one_not_nan a Ha), orb_false_r.
    destruct Hone as [->|Hin].
    + rewrite Hv. apply IH; auto.
    + apply elem_of_cons in Hin as [<-|Hin].
      * destruct (SFleb f32_one a) eqn:E.
        -- apply IH; auto. left. by apply SFleb_one_antisym.
        -- apply IH; auto.
      * destruct (SFleb v a); apply IH; auto.
Qed.

Lemma finite32_abs_nonneg x : finite32 x = true -> nonneg32 (SFabs x) = true.
Proof. by destruct x as [[]|[]| |[] ? ?]. Qed.

(** Dividing a finite value by a finite non-zero peak of larger or equal
    magnitude gives magnitude at most 1. *)
Lemma SFdiv_by_peak_le_one x mp ep :
  finite32 x = true -> bounded prec emax mp ep = true ->
  SFleb (SFabs x) (S754_finite false mp ep) = true ->
  SFleb (SFabs (SFdiv prec emax x (S754_finite false mp ep))) f32_one = true.
Proof.
  destruct x as [[]|[]| |s m e]; try done. cbn [finite32 SFabs].
  intros Hb Hp Hle. by apply SFdiv_finite_le_one.
Qed.

Lemma SFdiv_at_peak x mp ep :
  finite32 x = true -> SFabs x = S754_finite false mp ep ->
  SFabs (SFdiv prec emax x (S754_finite false mp ep)) = f32_one.
Proof.
  destruct x as [[]|[]| |s m e]; try done. cbn [finite32 SFabs].
  intros Hb [= -> ->]. rewrite SFdiv_finite_self by done. done.
Qed.

Lemma silent_false_elem y :
  silent y = false -> exists x, x ∈ y /\ is_zero x = false.
Proof.
  induction y as [|x y IH]; [done|]. cbn [silent forallb].
  destruct (is_zero x) eqn:E.
  - intros H. destruct (IH H) as (x' & Hin & Hz). exists x'.
    split; [by apply list_elem_of_further|done].
  - intros _. exists x. split; [apply list_elem_of_here|done].
Qed.

(** The peak of a finite, non-silent signal after [peak_normalize] is
    exactly 1. *)
Lemma peak_normalize_peak y :
  forallb finite32 y = true -> silent y = false ->
  exists yn,
    peak_normalize y = Ok yn /\ length yn = length y /\
    np_max (np_abs yn) = Ok f32_one.
Proof.
  intros Hfin Hsil.
  assert (HF : Forall (fun x => finite32 x = true) y).
  { apply Forall_forall. intros x Hx. rewrite forallb_forall in Hfin.
    apply Hfin. by apply list_elem_of_In. }
  destruct y as [|x0 y']; [done|].
  unfold peak_normalize, np_max, np_abs. cbn [fmap list_fmap].
  set (peak := fold_left np_maximum (SFabs <$> y') (SFabs x0)).
  assert (Hnn0 : nonneg32 (SFabs x0) = true).
  { apply finite32_abs_nonneg. by inversion HF. }
  assert (Hnn : Forall (fun v => nonneg32 v = true) (SFabs <$> y')).
  { apply Forall_fmap. inversion HF as [|? ? _ HF']; subst.
    eapply Forall_impl; [exact HF'|]. intros x. apply finite32_abs_nonneg. }
  destruct (fold_maximum_spec (SFabs <$> y') (SFabs x0) Hnn0 Hnn) as (Hin & Hpn & Hall).
  fold peak in Hin, Hpn, Hall.
  change (SFabs x0 :: (SFabs <$> y')) with (SFabs <$> (x0 :: y')) in Hin, Hall.
  apply list_elem_of_fmap in Hin as (xp & Hxp & Hxpin).
  rewrite Forall_fmap in Hall.
  (* the peak is a finite non-zero value *)
  destruct (silent_false_elem _ Hsil) as (xz & Hxz & Hnz).
  assert (Hpk : exists mp ep, peak = S754_finite false mp ep /\ bounded prec emax mp ep = true).
  { rewrite Forall_forall in HF, Hall.
    pose proof (HF xp Hxpin) as Hfp. pose proof (Hall xz Hxz) as Hle.
    pose proof (HF xz Hxz) as Hfz. cbn in Hle.
    destruct xp as [sp|sp| |sp mp ep]; try done.
    - rewrite Hxp in Hle. by destruct xz as [[]|[]| |[] ? ?].
    - exists mp, ep. split; [done|]. exact Hfp. }
  destruct Hpk as (mp & ep & Epk & Hbp).
  exists (np_divide (x0 :: y') peak). split; [done|]. split; [unfold np_divide; by rewrite length_fmap|].
  unfold np_divide. rewrite <- list_fmap_compose. cbn [fmap list_fmap].
  f_equal. apply fold_maximum_one.
  - rewrite Epk. apply SFdiv_by_peak_le_one; [by inversion HF|done|].
    rewrite <- Epk. by inversion Hall.
  - apply Forall_fmap. inversion HF as [|? ? _ HF']; inversion Hall as [|? ? _ Hall']; subst.
    rewrite Forall_forall in HF', Hall'. apply Forall_forall. intros x Hx. cbn.
    rewrite Epk. apply SFdiv_by_peak_le_one; [by apply HF'|done|].
    rewrite <- Epk. by apply Hall'.
  - assert (Hone : SFabs (SFdiv prec emax xp peak) = f32_one).
    { rewrite Epk. apply SFdiv_at_peak; [|by rewrite <- Epk].
      rewrite Forall_forall in HF. by apply HF. }
    apply elem_of_cons in Hxpin as [->|Hxpin]; [left; done|right].
    apply list_elem_of_fmap. exists xp. split; [by rewrite <- Hone|done].
Qed.

(** A filter with finite taps, started from a zero state, maps zeros to
    zeros. *)
Lemma lfilter1_silent s0 m0 e0 s1 m1 e1 x : forall z,
  is_zero z = true -> silent x = true ->
  silent (lfilter1 (S754_finite s0 m0 e0) (S754_finite s1 m1 e1) z x) = true.
Proof.
  induction x as [|xn x IH]; intros z Hz Hx; [done|].
  cbn [silent forallb] in Hx. apply andb_true_iff in Hx as [Hxn Hx].
  cbn [lfilter1 silent forallb]. apply andb_true_iff. split.
  - destruct xn as [sx| | |]; try done. destruct z as [sz| | |]; try done.
    by destruct s0, sx, sz.
  - apply IH; [|done]. by destruct xn.
Qed.

Lemma lfilter1_length b0 b1 x : forall z, length (lfilter1 b0 b1 z x) = length x.
Proof. induction x as [|xn x IH]; intros z; cbn; [done|]. by rewrite IH. Qed.

(** Pre-emphasis maps silence to silence. *)
Lemma preemphasis_silent y :
  silent y = true -> 2 <= length y ->
  exists ye, preemphasis y = Ok ye /\ length ye = length y /\ silent ye = true.
Proof.
  intros Hs Hlen. destruct y as [|y0 [|y1 y]]; cbn in Hlen; try lia.
  eexists. split; [reflexivity|]. split; [apply lfilter1_length|].
  apply lfilter1_silent; [|done].
  cbn [silent forallb] in Hs.
  apply andb_true_iff in Hs as [H0 Hs]. apply andb_true_iff in Hs as [H1 _].
  destruct y0 as [s0| | |]; try done. destruct y1 as [s1| | |]; try done.
  by destruct s0, s1.
Qed.

Lemma fold_maximum_silent y :
  silent y = true ->
  fold_left np_maximum (np_abs y) (S754_zero false) = S754_zero false.
Proof.
  induction y as [|x y IH]; [done|]. cbn [silent forallb]. intros H.
  apply andb_true_iff in H as [Hx Hy]. destruct x as [sx| | |]; try done.
  cbn. by apply IH.
Qed.

Lemma np_max_silent y :
  silent y = true -> y <> [] -> np_max (np_abs y) = Ok (S754_zero false).
Proof.
  destruct y as [|x y]; [done|]. cbn [silent forallb]. intros H _.
  apply andb_true_iff in H as [Hx Hy]. destruct x as [sx| | |]; try done.
  cbn. f_equal. by apply fold_maximum_silent.
Qed.

Lemma np_divide_silent y :
  silent y = true -> np_divide y (S754_zero false) = replicate (length y) S754_nan.
Proof.
  induction y as [|x y IH]; [done|]. cbn [silent forallb]. intros H.
  apply andb_true_iff in H as [Hx Hy]. destruct x as [sx| | |]; try done.
  cbn. f_equal. by apply IH.
Qed.

(** On a silent signal the peak is zero and every quotient is NaN. *)
Lemma peak_normalize_silent y :
  silent y = true -> y <> [] ->
  peak_normalize y = Ok (replicate (length y) S754_nan).
Proof.
  intros Hs Hne. unfold peak_normalize. rewrite np_max_silent by done.
  by rewrite np_divide_silent.
Qed.

Lemma peak_one_not_silent y :
  np_max (np_abs y) = Ok f32_one -> silent y = false.
Proof.
  intros Hp. destruct (silent y) eqn:Hs; [|done].
  destruct y as [|x y]; [done|]. by rewrite np_max_silent in Hp.
Qed.

End Peak.

(** ** Strings: decimal numerals, labels, [index] and [replace] *)

Section Strings.

Lemma string_of_uint_digits d : all_digits (NilEmpty.string_of_uint d) = true.
Proof. induction d; cbn; auto. Qed.

Lemma dec_digits n : all_digits (dec n) = true.
Proof. apply string_of_uint_digits. Qed.

Lemma dec_inj n m : dec n = dec m -> n = m.
Proof.
  unfold dec. intros H. apply Unsigned.to_uint_inj.
  assert (E : Some (Nat.to_uint n) = Some (Nat.to_uint m)).
  { rewrite <- !NilEmpty.usu. by rewrite H. }
  by injection E.
Qed.

(** A numeral is delimited by the first character that is not a digit. *)
Lemma digits_then_space s1 : forall s2 r1 r2,
  all_digits s1 = true -> all_digits s2 = true ->
  s1 +:+ String " " r1 = s2 +:+ String " " r2 -> s1 = s2.
Proof.
  induction s1 as [|c s1 IH]; intros [|c2 s2] r1 r2 H1 H2 E; cbn in *.
  - done.
  - injection E as <- _. done.
  - injection E as -> _. done.
  - injection E as -> E. apply andb_true_iff in H1 as [_ H1], H2 as [_ H2].
    f_equal. by apply (IH s2 r1 r2).
Qed.

Section Labels.
Variable w : world.

(** Every label is "Track ", a numeral, then text starting with a space. *)
Lemma track_label_shape i stream :
  exists rest, track_label w i stream = "Track " +:+ dec i +:+ String " " rest.
Proof.
  unfold track_label.
  destruct (is_unknown (language stream)), (is_unknown (title stream));
    cbn [String.append]; eexists; reflexivity.
Qed.

Lemma track_label_inj i j s s' : track_label w i s = track_label w j s' -> i = j.
Proof.
  destruct (track_label_shape i s) as [r ->].
  destruct (track_label_shape j s') as [r' ->].
  intros E. apply String.app_inj in E.
  apply dec_inj. eapply digits_then_space; eauto using dec_digits.
Qed.

Lemma track_options_from_lookup l : forall i k,
  track_options_from w i l !! k = track_label w (i + k) <$> l !! k.
Proof.
  induction l as [|s l IH]; intros i [|k]; cbn; try done.
  - by rewrite Nat.add_0_r.
  - rewrite IH. by rewrite Nat.add_succ_r.
Qed.

Lemma track_options_from_length l : forall i,
  length (track_options_from w i l) = length l.
Proof. induction l as [|s l IH]; intros i; cbn; [done|]. by rewrite IH. Qed.

(** [index] finds every label at its own position. *)
Lemma list_index_track_options l : forall i k s,
  l !! k = Some s ->
  list_index (track_label w (i + k) s) (track_options_from w i l) = Some k.
Proof.
  induction l as [|s0 l IH]; intros i [|k] s Hk; cbn in Hk; try done.
  - injection Hk as ->. cbn. by rewrite Nat.add_0_r, String.eqb_refl.
  - cbn [track_options_from list_index].
    destruct (String.eqb_spec (track_label w i s0) (track_label w (i + S k) s)) as [E|_].
    + apply track_label_inj in E. lia.
    + rewrite Nat.add_succ_r. change (S (i + k)) with (S i + k).
      by rewrite (IH (S i) k s Hk).
Qed.

(** Lines 134-135 return the position the user picked. *)
Lemma selected_index_position audio_streams :
  default 0 (selection w) < length audio_streams ->
  selected_index w audio_streams = Ok (default 0 (selection w)).
Proof.
  intros Hk. unfold selected_index, st_selectbox, track_options.
  destruct (lookup_lt_is_Some_2 audio_streams _ Hk) as [s Hs].
  rewrite track_options_from_lookup, Hs. cbn [fmap option_fmap option_map].
  by rewrite (list_index_track_options audio_streams 0 _ s Hs).
Qed.

End Labels.

Section Replace.

Lemma prefix_app_long old : forall s t,
  String.length old <= String.length s ->
  String.prefix old (s +:+ t) = String.prefix old s.
Proof.
  induction old as [|a old IH]; intros [|b s] t Hlen; simpl in *; try done; try lia.
  - by destruct t.
  - destruct (ascii_dec a b); [|done]. apply IH. lia.
Qed.

(** No occurrence of ".wav" can start inside a short tail and end inside
    a following ".wav". *)
Lemma wav_no_straddle s :
  s <> EmptyString -> String.length s < 4 -> String.prefix ".wav" (s +:+ ".wav") = false.
Proof.
  destruct s as [|c1 [|c2 [|c3 [|c4 s]]]]; cbn [String.length]; try done; try lia;
    intros _ _; cbv [String.append String.prefix];
    repeat match goal with
           | |- context [ascii_dec ?a ?b] => destruct (ascii_dec a b); subst; try done
           end.
Qed.

Lemma append_cons c s t : String c s +:+ t = String c (s +:+ t).
Proof. reflexivity. Qed.

Lemma append_assoc s : forall t u, (s +:+ t) +:+ u = s +:+ (t +:+ u).
Proof. induction s as [|c s IH]; intros t u; [done|]. by rewrite !append_cons, IH. Qed.

Lemma wav_prefix_short s :
  String.length s < 4 -> String.prefix ".wav" s = false.
Proof.
  destruct s as [|c1 [|c2 [|c3 [|c4 s]]]]; cbn [String.length]; try lia; intros _;
    cbv [String.prefix]; try done;
    repeat match goal with
           | |- context [ascii_dec ?a ?b] => destruct (ascii_dec a b); subst; try done
           end.
Qed.

Lemma replace_from_wav_app s : forall skip,
  skip <= String.length s ->
  replace_from ".wav" "_enhanced.wav" skip (s +:+ ".wav")
  = replace_from ".wav" "_enhanced.wav" skip s +:+ "_enhanced.wav".
Proof.
  induction s as [|c s IH]; intros skip Hskip.
  - cbn in Hskip. by replace skip with 0 by lia.
  - rewrite append_cons. cbn [replace_from]. destruct skip as [|k].
    + rewrite <- (append_cons c s ".wav").
      destruct (le_lt_dec 4 (String.length (String c s))) as [Hlong|Hshort].
      * rewrite prefix_app_long by exact Hlong.
        destruct (String.prefix ".wav" (String c s)).
        -- change (String.length ".wav" - 1) with 3.
           rewrite IH by (cbn [String.length] in Hlong; lia).
           by rewrite append_assoc.
        -- by rewrite IH, append_cons by lia.
      * rewrite wav_no_straddle, wav_prefix_short by done.
        by rewrite IH, append_cons by lia.
    + apply IH. cbn [String.length] in Hskip. lia.
Qed.

Lemma replace_from_absent old new s :
  occurs old s = false -> replace_from old new 0 s = s.
Proof.
  induction s as [|c s IH]; [done|]. cbn [occurs replace_from].
  intros H. apply orb_false_iff in H as [-> H]. by rewrite IH.
Qed.

(** Line 154 on a path that ends in ".wav". *)
Lemma enhanced_path_of_wav stem :
  str_replace (stem +:+ ".wav") ".wav" "_enhanced.wav"
  = str_replace stem ".wav" "_enhanced.wav" +:+ "_enhanced.wav".
Proof. unfold str_replace. apply replace_from_wav_app. lia. Qed.

Lemma enhanced_path_simple stem :
  occurs ".wav" stem = false ->
  str_replace (stem +:+ ".wav") ".wav" "_enhanced.wav" = stem +:+ "_enhanced.wav".
Proof.
  intros H. rewrite enhanced_path_of_wav. unfold str_replace.
  by rewrite replace_from_absent.
Qed.

End Replace.

End Strings.

(** ** The monad: what each step appends to the log *)

Section Emits.
Context {A : Type} (P : event -> bool).

Lemma emits_ret (a : A) : emits P (ret a).
Proof. intros st. exists []. by rewrite app_nil_r. Qed.

Lemma emits_raise e : emits P (raise (A := A) e).
Proof. intros st. exists []. by rewrite app_nil_r. Qed.

Lemma emits_lift (r : outcome A) : emits P (lift r).
Proof. intros st. exists []. by rewrite app_nil_r. Qed.

Lemma emits_bind {B} (c : M B) (k : B -> M A) :
  emits P c -> (forall b, emits P (k b)) -> emits P (bind c k).
Proof.
  intros Hc Hk st. unfold bind. destruct (Hc st) as (evs & E & Hevs).
  destruct (c st) as [[b|e] st1]; cbn [snd] in *.
  - destruct (Hk b st1) as (evs' & E' & Hevs'). exists (evs ++ evs').
    rewrite E', E, app_assoc, forallb_app, Hevs, Hevs'. done.
  - by exists evs.
Qed.

Lemma emits_try_except (body : M A) (handler : string -> M A) :
  emits P body -> (forall e, emits P (handler e)) -> emits P (try_except body handler).
Proof.
  intros Hc Hk st. unfold try_except. destruct (Hc st) as (evs & E & Hevs).
  destruct (body st) as [[b|e] st1]; cbn [snd] in *.
  - by exists evs.
  - destruct (Hk e st1) as (evs' & E' & Hevs'). exists (evs ++ evs').
    rewrite E', E, app_assoc, forallb_app, Hevs, Hevs'. done.
Qed.

Lemma emits_try_finally (body : M A) (final : M unit) :
  emits P body -> emits P final -> emits P (try_finally body final).
Proof.
  intros Hc Hf st. unfold try_finally. destruct (Hc st) as (evs & E & Hevs).
  destruct (body st) as [r st1]; cbn [snd] in *.
  destruct (Hf st1) as (evs' & E' & Hevs').
  exists (evs ++ evs').
  destruct (final st1) as [[[]|e] st2]; cbn [snd] in *;
    rewrite E', E, app_assoc, forallb_app, Hevs, Hevs'; done.
Qed.
End Emits.

Section EmitsUnit.
Context (P : event -> bool).

Lemma emits_emit ev : P ev = true -> emits P (emit ev).
Proof. intros H st. exists [ev]. cbn. by rewrite H. Qed.

Lemma emits_assign name path : emits P (assign name path).
Proof. intros st. exists []. by rewrite app_nil_r. Qed.

Lemma emits_create_file path : emits P (create_file path).
Proof. intros st. exists []. by rewrite app_nil_r. Qed.

Lemma emits_remove_file path : emits P (remove_file path).
Proof. intros st. exists []. by rewrite app_nil_r. Qed.

Lemma emits_get_locals : emits P get_locals.
Proof. intros st. exists []. by rewrite app_nil_r. Qed.

Lemma emits_path_exists path : emits P (path_exists path).
Proof. intros st. exists []. by rewrite app_nil_r. Qed.

Lemma emits_attempt r : emits P (attempt r).
Proof. destruct r; [apply emits_raise|apply emits_ret]. Qed.

Lemma emits_for_each {B} (l : list B) (body : B -> M unit) :
  (forall b, emits P (body b)) -> emits P (for_each l body).
Proof.
  intros Hb. induction l as [|b l IH]; cbn [for_each].
  - apply emits_ret.
  - apply emits_bind; [apply Hb|]. intros _. apply IH.
Qed.
End EmitsUnit.

Section LogOnly.
Context {A : Type}.

Lemma add_log_nil st : add_log st [] = st.
Proof. destruct st. unfold add_log. cbn. by rewrite app_nil_r. Qed.

Lemma add_log_add_log st evs evs' :
  add_log (add_log st evs) evs' = add_log st (evs ++ evs').
Proof. unfold add_log. cbn. by rewrite app_assoc. Qed.

Lemma log_only_ret (a : A) : log_only (ret a).
Proof. exists (Ok a), []. intros st. by rewrite add_log_nil. Qed.

Lemma log_only_raise e : log_only (raise (A := A) e).
Proof. exists (Raised e), []. intros st. by rewrite add_log_nil. Qed.

Lemma log_only_lift (r : outcome A) : log_only (lift r).
Proof. exists r, []. intros st. by rewrite add_log_nil. Qed.

Lemma log_only_bind {B} (c : M B) (k : B -> M A) :
  log_only c -> (forall b, log_only (k b)) -> log_only (bind c k).
Proof.
  intros (r & evs & Hc) Hk. destruct r as [b|e].
  - destruct (Hk b) as (r' & evs' & Hk'). exists r', (evs ++ evs'). intros st.
    unfold bind. by rewrite Hc, Hk', add_log_add_log.
  - exists (Raised e), evs. intros st. unfold bind. by rewrite Hc.
Qed.

Lemma log_only_try_except (body : M A) (handler : string -> M A) :
  log_only body -> (forall e, log_only (handler e)) -> log_only (try_except body handler).
Proof.
  intros (r & evs & Hc) Hk. destruct r as [a|e].
  - exists (Ok a), evs. intros st. unfold try_except. by rewrite Hc.
  - destruct (Hk e) as (r' & evs' & Hk'). exists r', (evs ++ evs'). intros st.
    unfold try_except. by rewrite Hc, Hk', add_log_add_log.
Qed.
End LogOnly.

Lemma log_only_emit ev : log_only (emit ev).
Proof. by exists (Ok tt), [ev]. Qed.

Ltac log_only_step :=
  first
    [ apply log_only_ret | apply log_only_raise | apply log_only_lift
    | apply log_only_emit
    | apply log_only_bind; [|intros ?]
    | apply log_only_try_except; [|intros ?]
    | match goal with
      | |- log_only (match ?x with _ => _ end) => destruct x
      end ].

(** One proof step per construct of a script block. *)
Ltac emits_step :=
  first
    [ apply emits_ret | apply emits_raise | apply emits_lift
    | apply emits_assign | apply emits_create_file | apply emits_remove_file
    | apply emits_get_locals | apply emits_path_exists | apply emits_attempt
    | apply emits_emit; reflexivity
    | apply emits_bind; [|intros ?]
    | apply emits_try_except; [|intros ?]
    | apply emits_try_finally
    | apply emits_for_each; intros ?
    | match goal with
      | |- emits _ (match ?x with _ => _ end) => destruct x
      end ].

Ltac emits_auto := repeat emits_step.

(** ** The blocks of the script, one by one *)

Section Blocks.
Variable w : world.

(** The [finally] block only unlinks and warns. *)
Lemma cleanup_emits : emits is_cleanup_event (cleanup w).
Proof. unfold cleanup, close_video_handles, cleanup_one. emits_auto. Qed.

Lemma cleanup_returns st : fst (cleanup w st) = Ok tt.
Proof.
  unfold cleanup, close_video_handles, bind, get_locals.
  assert (H : forall l st, fst (for_each l (cleanup_one w) st) = Ok tt).
  { induction l as [|x l IH]; intros st0; [done|]. cbn [for_each]. unfold bind.
    assert (Hx : fst (cleanup_one w x st0) = Ok tt).
    { unfold cleanup_one, bind, get_locals, path_exists, try_except, emit, attempt.
      destruct (locals st0 !! x); [|done].
      destruct (bool_decide _); [|done].
      destruct (unlink w s); done. }
    destruct (cleanup_one w x st0) as [[[]|e] st1]; cbn in Hx; [apply IH|done]. }
  destruct (bool_decide _); apply (H cleanup_names).
Qed.

(** One round of the clean-up loop: nothing happens, or the bound path is
    unlinked, or the unlink fails and a warning is shown. *)
Lemma cleanup_one_cases path_var st :
  cleanup_one w path_var st = (Ok tt, st) /\
    (locals st !! path_var = None \/
     exists path, locals st !! path_var = Some path /\ path ∉ fs st) \/
  exists path,
    locals st !! path_var = Some path /\ path ∈ fs st /\
    (cleanup_one w path_var st
     = (Ok tt, {| fs := fs st ∖ {[path]}; log := log st ++ [CallUnlink path];
                  locals := locals st |}) \/
     exists unlink_err,
       cleanup_one w path_var st
       = (Ok tt, {| fs := fs st;
                    log := log st ++ [CallUnlink path;
                                      UiWarning ("Could not delete " +:+ path_var
                                                 +:+ ": " +:+ unlink_err)];
                    locals := locals st |})).
Proof.
  unfold cleanup_one, bind, get_locals, path_exists, try_except, emit, attempt,
    remove_file, raise, ret.
  destruct (locals st !! path_var) as [path|] eqn:El.
  - cbn [fst snd]. case_bool_decide as Hin.
    + right. exists path. split; [done|]. split; [done|].
      destruct (unlink w path) as [e|]; cbn [fs log locals].
      * right. exists e. by rewrite <- app_assoc.
      * by left.
    + left. split; [by destruct st|]. right. by exists path.
  - left. split; [by destruct st|]. by left.
Qed.

(** A path that exists or has already been handed to [os.unlink] stays so
    through the loop, and the loop attempts every bound path that exists. *)
Lemma cleanup_loop_attempts names : forall st path_var path,
  path_var ∈ names ->
  locals st !! path_var = Some path ->
  path ∈ fs st \/ CallUnlink path ∈ log st ->
  CallUnlink path ∈ log (snd (for_each names (cleanup_one w) st)).
Proof.
  assert (Hkeep : forall names st path,
            CallUnlink path ∈ log st ->
            CallUnlink path ∈ log (snd (for_each names (cleanup_one w) st))).
  { intros names0 st path Hin.
    assert (He : emits (fun _ => true) (for_each names0 (cleanup_one w))).
    { unfold cleanup_one. emits_auto. }
    destruct (He st) as (evs & -> & _). apply elem_of_app. by left. }
  induction names as [|n names IH]; intros st path_var path Hn Hl Hp.
  - by apply elem_of_nil in Hn.
  - cbn [for_each]. unfold bind.
    destruct (cleanup_one_cases n st) as [[E Hnone]|(q & Hq & Hqin & [E|(e & E)])];
      rewrite E.
    + apply elem_of_cons in Hn as [->|Hn].
      * destruct Hp as [Hp|Hp]; [|by apply Hkeep].
        destruct Hnone as [Hnone|(q & Hq & Hqin)]; [congruence|].
        assert (q = path) by congruence. by subst.
      * by apply (IH st path_var path).
    + destruct (decide (q = path)) as [->|Hne].
      * apply Hkeep. cbn [log]. apply elem_of_app. right. apply list_elem_of_here.
      * apply elem_of_cons in Hn as [->|Hn]; [congruence|].
        apply (IH _ path_var path); [done|done|]. cbn [fs log].
        destruct Hp as [Hp|Hp]; [left; set_solver|right; apply elem_of_app; by left].
    + destruct (decide (q = path)) as [->|Hne].
      * apply Hkeep. cbn [log]. apply elem_of_app. right. apply list_elem_of_here.
      * apply elem_of_cons in Hn as [->|Hn]; [congruence|].
        apply (IH _ path_var path); [done|done|]. cbn [fs log].
        destruct Hp as [Hp|Hp]; [by left|right; apply elem_of_app; by left].
Qed.

(** The [finally] block attempts to unlink every path that is bound to one
    of its four names and exists. *)
Lemma cleanup_attempts_bound_paths st path_var path :
  path_var ∈ cleanup_names ->
  locals st !! path_var = Some path ->
  path ∈ fs st ->
  CallUnlink path ∈ log (snd (cleanup w st)).
Proof.
  intros Hn Hl Hp. unfold cleanup, close_video_handles, bind, get_locals.
  destruct (bool_decide _); cbn [emit ret fst snd];
    apply (cleanup_loop_attempts cleanup_names _ path_var path); auto.
Qed.

Lemma enhancement_block_emits audio_path :
  emits not_ffmpeg_call (enhancement_block w audio_path).
Proof. unfold enhancement_block. emits_auto. Qed.

Lemma conversion_block_emits final_audio_path :
  emits not_ffmpeg_call (conversion_block w final_audio_path).
Proof. unfold conversion_block. emits_auto. Qed.

Lemma present_block_emits filename audio_streams k final_output_path :
  emits not_ffmpeg_call (present_block w filename audio_streams k final_output_path).
Proof. unfold present_block. emits_auto. Qed.

Lemma cleanup_emits_no_ffmpeg : emits not_ffmpeg_call (cleanup w).
Proof. unfold cleanup, close_video_handles, cleanup_one. emits_auto. Qed.

(** The probe touches only the log, and what it returns and reports does
    not depend on the state it starts from. *)
Lemma get_audio_streams_log_only video_path :
  log_only (get_audio_streams w video_path).
Proof. unfold get_audio_streams. repeat log_only_step. Qed.

(** It never raises: every failure is turned into an empty list. *)
Lemma get_audio_streams_returns video_path st :
  exists streams, fst (get_audio_streams w video_path st) = Ok streams.
Proof.
  unfold get_audio_streams, try_except.
  match goal with |- context [bind ?c ?k st] => destruct (bind c k st) as [[streams|e] st1] end.
  - by exists streams.
  - by exists [].
Qed.

Lemma get_audio_streams_emits video_path :
  emits (fun ev => not_unlink_call ev && not_ffmpeg_call ev) (get_audio_streams w video_path).
Proof. unfold get_audio_streams. emits_auto. Qed.

Lemma get_audio_streams_probed :
  exists streams evs,
    probed w = Ok streams /\
    forallb (fun ev => not_unlink_call ev && not_ffmpeg_call ev) evs = true /\
    forall st, get_audio_streams w (tmp_video w) st = (Ok streams, add_log st evs).
Proof.
  destruct (get_audio_streams_log_only (tmp_video w)) as (r & evs & H).
  destruct (get_audio_streams_returns (tmp_video w) initial_state) as (streams & Hs).
  destruct (get_audio_streams_emits (tmp_video w) initial_state) as (evs' & Hl & Hevs).
  rewrite H in Hs, Hl. cbn in Hs, Hl. subst r evs'.
  exists streams, evs. split; [|done]. unfold probed. by rewrite H.
Qed.

Lemma guarded_bind_ok {A B} (c : M A) (k : A -> M B) h final st a st' :
  c st = (Ok a, st') ->
  try_finally (try_except (bind c k) h) final st
  = try_finally (try_except (k a) h) final st'.
Proof. intros H. unfold try_finally, try_except, bind. by rewrite H. Qed.

Lemma session_after_probe filename size :
  uploaded_file w = Some (filename, size) ->
  exists streams evs,
    probed w = Ok streams /\
    forallb (fun ev => not_unlink_call ev && not_ffmpeg_call ev) evs = true /\
    session w initial_state
    = track_workflow w filename (tmp_video w) streams
        (add_log (uploaded_state w filename size) evs).
Proof.
  intros Hup. destruct get_audio_streams_probed as (streams & evs & Hp & Hevs & Hrun).
  exists streams, evs. split; [done|]. split; [done|].
  unfold session. rewrite Hup. unfold bind at 1 2 3 4 5 6.
  cbn [emit assign create_file initial_state fs log locals app].
  by rewrite Hrun.
Qed.

(** Extraction starts with exactly one ffmpeg invocation and then only
    reports. *)
Lemma extract_audio_track_shape video_path k output_path st :
  exists ok evs,
    extract_audio_track w video_path k output_path st
    = (Ok ok, add_log st (CallFfmpeg (ffmpeg_cmd video_path k output_path) :: evs)) /\
    forallb not_ffmpeg_call evs = true.
Proof.
  unfold extract_audio_track, try_except, bind, lift, ret, emit, add_log.
  destruct (run_ffmpeg w _) as [[rc err]|e]; cbn [fs log locals].
  - destruct (negb (rc =? 0)%Z).
    + destruct (decode w err) as [text|e]; cbn [fs log locals];
        eexists _, [_]; rewrite <- app_assoc; split; reflexivity.
    + eexists _, []. split; reflexivity.
  - eexists _, [_]. rewrite <- app_assoc. split; reflexivity.
Qed.

Lemma extract_audio_track_fail video_path k output_path returncode stderr :
  run_ffmpeg w (ffmpeg_cmd video_path k output_path) = Ok (returncode, stderr) ->
  returncode <> 0%Z ->
  exists msg,
    (forall text, decode w stderr = Ok text -> msg = "Error extracting audio: " +:+ text) /\
    (forall e, decode w stderr = Raised e -> msg = "Error extracting audio track: " +:+ e) /\
    forall st,
      extract_audio_track w video_path k output_path st
      = (Ok false,
         add_log st [CallFfmpeg (ffmpeg_cmd video_path k output_path); UiError msg]).
Proof.
  intros Hrun Hrc.
  unfold extract_audio_track, try_except, bind, lift, ret, emit, add_log.
  rewrite Hrun. rewrite (proj2 (Z.eqb_neq returncode 0) Hrc). cbn [negb fs log locals].
  destruct (decode w stderr) as [text|e]; cbn [fs log locals]; eexists;
    (split; [|split]).
  - by intros ? [= <-].
  - done.
  - intros st. by rewrite <- app_assoc.
  - done.
  - by intros ? [= <-].
  - intros st. by rewrite <- app_assoc.
Qed.

Lemma track_workflow_pressed filename video_path audio_streams st :
  default 0 (selection w) < length audio_streams ->
  button_pressed w = true ->
  track_workflow w filename video_path audio_streams st
  = try_finally
      (try_except
         (extraction_body w filename video_path audio_streams (default 0 (selection w)))
         (fun e => emit (UiError ("Error extracting audio: " +:+ e))))
      (cleanup w)
      (add_log st [UiSubheader "Available Audio Tracks"; UiSpinner "Extracting audio..."]).
Proof.
  intros Hk Hb. unfold track_workflow.
  destruct audio_streams as [|s rest]; [cbn in Hk; lia|].
  rewrite (selected_index_position w (s :: rest) Hk), Hb.
  unfold bind at 1 2 3, lift, emit, add_log. cbn [fs log locals].
  by rewrite <- app_assoc.
Qed.

(** The enhancement block when every step succeeds. *)
Lemma enhancement_block_run audio_path st y sr ye yn :
  librosa_load w audio_path = Ok (y, sr) ->
  preemphasis y = Ok ye ->
  peak_normalize ye = Ok yn ->
  sf_write w (str_replace audio_path ".wav" "_enhanced.wav") yn sr = None ->
  enhancement_block w audio_path st
  = (Ok (str_replace audio_path ".wav" "_enhanced.wav"),
     {| fs := {[str_replace audio_path ".wav" "_enhanced.wav"]} ∪ fs st;
        log := log st
               ++ [UiInfo "Applying ML audio enhancement...";
                   CallLoad audio_path;
                   CallSfWrite (str_replace audio_path ".wav" "_enhanced.wav") yn sr];
        locals := <["final_audio_path" := str_replace audio_path ".wav" "_enhanced.wav"]>
                    (<["enhanced_path" := str_replace audio_path ".wav" "_enhanced.wav"]>
                       (locals st)) |}).
Proof.
  intros Hload Hpre Hnorm Hwrite.
  unfold enhancement_block, bind, lift, emit, assign, attempt, create_file, ret.
  rewrite Hload, Hpre, Hnorm. cbn [fs log locals]. rewrite Hwrite.
  cbn [fs log locals]. by rewrite <- !app_assoc.
Qed.

End Blocks.

(* ===================================================================== *)
(** * Part III: the claims                                                *)
(* ===================================================================== *)

(** ** Stream Prober *)

(** C3, as stated, fails: an entry without an [index] key gets [index = None],
    not the string "unknown" ([stream.get('index')] has no default). *)
Lemma absent_index_is_None :
  exists i, describe_stream (PDict ∅) = Ok i /\
            (∅ : gmap string pyval) !! "index" = None /\
            index i = PNone /\ index i <> PStr "unknown".
Proof. eexists. split; [reflexivity|]. cbn. repeat split; done. Qed.

(** C3, amended: for every stream entry whose [tags], if present, is an
    object, the descriptor fields codec, sample_rate, channels, duration,
    bit_rate, language and title are the string "unknown" whenever they are
    absent from ffprobe's output (language and title also when the tag map
    itself is absent); an absent index is [None]. *)
Theorem absent_fields_are_unknown (d : gmap string pyval) :
  tags_usable d = true ->
  exists i, describe_stream (PDict d) = Ok i /\
    (d !! "index" = None -> index i = PNone) /\
    (d !! "codec_name" = None -> codec i = PStr "unknown") /\
    (d !! "sample_rate" = None -> sample_rate i = PStr "unknown") /\
    (d !! "channels" = None -> channels i = PStr "unknown") /\
    (d !! "duration" = None -> duration i = PStr "unknown") /\
    (d !! "bit_rate" = None -> bit_rate i = PStr "unknown") /\
    (tag_absent d "language" -> language i = PStr "unknown") /\
    (tag_absent d "title" -> title i = PStr "unknown").
Proof.
  unfold tags_usable, tag_absent, describe_stream, tag_get, dict_get. intros Htags.
  destruct (d !! "tags") as [[| | | | | |t]|] eqn:Et; try done.
  - eexists. split; [reflexivity|]. cbn.
    repeat split; try (intros ->; reflexivity).
    + intros [?|(t' & [= <-] & ->)]; done.
    + intros [?|(t' & [= <-] & ->)]; done.
  - eexists. split; [reflexivity|]. cbn.
    repeat split; try (intros ->; reflexivity); done.
Qed.

Lemma absent_fields_are_unknown_witness :
  tags_usable stream_bare = true /\
  exists i, describe_stream (PDict stream_bare) = Ok i /\
            language i = PStr "unknown" /\ channels i = PStr "unknown" /\
            codec i = PStr "aac".
Proof.
  split; [reflexivity|].
  destruct (absent_fields_are_unknown stream_bare eq_refl)
    as (i & Hi & _ & _ & _ & Hch & _ & _ & Hlang & _).
  exists i. split; [exact Hi|]. split; [apply Hlang; by left|].
  split; [by apply Hch|].
  cbv in Hi. injection Hi as <-. reflexivity.
Defined.

(** C5: when ffprobe exits non-zero or its output does not parse, the
    prober reports an error and returns the empty list; and on an empty
    list, whatever produced it, the caller only reports "No audio tracks
    found" and never runs the extractor. *)
Theorem probe_failure_means_no_tracks (w : world) (filename video_path : string)
    (st st' : state) :
  probe_failed w video_path = true ->
  (exists msg,
     get_audio_streams w video_path st
     = (Ok [], add_log st [CallFfprobe (ffprobe_cmd video_path); UiError msg])) /\
  track_workflow w filename video_path [] st'
  = (Ok tt, add_log st' [UiError "No audio tracks found in the video file."]).
Proof.
  intros Hfail. split; [|reflexivity].
  unfold probe_failed in Hfail.
  unfold get_audio_streams, try_except, bind, lift, ret, raise, emit, add_log.
  destruct (run_ffprobe w (ffprobe_cmd video_path)) as [[[rc out] err]|e]; [|done].
  destruct (negb (rc =? 0)%Z).
  - eexists. cbn [fs log locals]. rewrite <- app_assoc. reflexivity.
  - destruct (json_loads w out) as [data|e]; [done|].
    eexists. cbn [fs log locals]. rewrite <- app_assoc. reflexivity.
Qed.

Lemma probe_failure_means_no_tracks_witness :
  probe_failed world_probe_fails "/tmp/tmpvideo01.mp4" = true /\
  (exists msg,
     get_audio_streams world_probe_fails "/tmp/tmpvideo01.mp4" initial_state
     = (Ok [], add_log initial_state
                 [CallFfprobe (ffprobe_cmd "/tmp/tmpvideo01.mp4"); UiError msg])) /\
  track_workflow world_probe_fails "clip.mp4" "/tmp/tmpvideo01.mp4" [] initial_state
  = (Ok tt, add_log initial_state [UiError "No audio tracks found in the video file."]).
Proof.
  split; [reflexivity|].
  apply (probe_failure_means_no_tracks world_probe_fails "clip.mp4" "/tmp/tmpvideo01.mp4").
  reflexivity.
Defined.

(** ** Track selection *)

(** C10, as stated, fails: with two tracks of identical language, title,
    channel count and codec, picking the second one resolves to position 1,
    not to the first occurrence. *)
Lemma twin_tracks_resolve_to_the_picked_one :
  probed world_twins = Ok [describe_default; describe_default] /\
  selection world_twins = Some 1 /\
  selected_index world_twins [describe_default; describe_default] = Ok 1 /\
  selected_index world_twins [describe_default; describe_default] <> Ok 0.
Proof. repeat split; try (vm_compute; reflexivity). vm_compute. congruence. Qed.

(** C10, amended: every label starts with the position of its entry, so the
    labels of a track list are pairwise distinct even when streams share
    language, title, channel count and codec, and selecting an entry
    resolves to that entry's own position. *)
Theorem selection_resolves_to_own_position (w : world) (audio_streams : list info) :
  default 0 (selection w) < length audio_streams ->
  NoDup (track_options w audio_streams) /\
  selected_index w audio_streams = Ok (default 0 (selection w)).
Proof.
  intros Hk. split; [|by apply selected_index_position].
  apply NoDup_alt. intros i j label Hi Hj. unfold track_options in Hi, Hj.
  rewrite track_options_from_lookup in Hi, Hj.
  destruct (audio_streams !! i) as [si|]; [|done].
  destruct (audio_streams !! j) as [sj|]; [|done].
  cbn [fmap option_fmap option_map] in Hi, Hj.
  assert (E : track_label w (0 + i) si = track_label w (0 + j) sj) by congruence.
  by apply track_label_inj in E.
Qed.

Lemma selection_resolves_to_own_position_witness :
  default 0 (selection world_twins) < length [describe_default; describe_default] /\
  NoDup (track_options world_twins [describe_default; describe_default]) /\
  selected_index world_twins [describe_default; describe_default] = Ok 1.
Proof.
  split; [cbn; lia|].
  apply (selection_resolves_to_own_position world_twins
           [describe_default; describe_default]).
  cbn. lia.
Defined.

(** ** Track Extractor *)

(** C8: once the button is pressed, ffmpeg is invoked exactly once, with
    [-map 0:a:N] where N is the position picked in the track list (whatever
    the descriptors' [index] fields are), with [-vn], [-acodec pcm_s16le],
    [-ar 44100] and [-y] in front of the output path. *)
Theorem extractor_invocation (w : world) (filename video_path : string)
    (audio_streams : list info) (st : state) :
  default 0 (selection w) < length audio_streams ->
  button_pressed w = true ->
  exists rest,
    log (snd (track_workflow w filename video_path audio_streams st))
    = log st
      ++ [UiSubheader "Available Audio Tracks"; UiSpinner "Extracting audio...";
          CallFfmpeg ["ffmpeg"; "-i"; video_path;
                      "-map"; "0:a:" +:+ dec (default 0 (selection w));
                      "-vn"; "-acodec"; "pcm_s16le"; "-ar"; "44100"; "-y"; tmp_audio w]]
      ++ rest /\
    forallb not_ffmpeg_call rest = true.
Proof.
  intros Hk Hb. rewrite track_workflow_pressed by done.
  set (k := default 0 (selection w)).
  set (st1 := add_log st _).
  unfold extraction_body.
  rewrite (guarded_bind_ok (create_file (tmp_audio w)) _ _ _ st1 tt
             {| fs := {[tmp_audio w]} ∪ fs st1; log := log st1; locals := locals st1 |})
    by reflexivity.
  set (st2 := {| fs := _; log := log st1; locals := _ |}).
  destruct (extract_audio_track_shape w video_path k (tmp_audio w) st2)
    as (ok & evs & Hrun & Hevs).
  rewrite (guarded_bind_ok _ _ _ _ st2 ok _ Hrun).
  match goal with
  | |- context [try_finally ?body ?final ?s] =>
      assert (He : emits not_ffmpeg_call (try_finally body final))
  end.
  { pose proof (enhancement_block_emits w). pose proof (conversion_block_emits w).
    pose proof (present_block_emits w). pose proof (cleanup_emits_no_ffmpeg w).
    destruct ok; emits_auto; auto. }
  match goal with
  | |- context [try_finally ?body ?final ?s] => destruct (He s) as (rest & Hlog & Hrest)
  end.
  exists (evs ++ rest). rewrite Hlog, forallb_app, Hevs, Hrest. split; [|done].
  unfold st2, st1, add_log, ffmpeg_cmd. cbn [log].
  rewrite <- !app_assoc. reflexivity.
Qed.

Lemma extractor_invocation_witness :
  default 0 (selection world_twins) < length [describe_default; describe_default] /\
  button_pressed world_twins = true /\
  exists rest,
    log (snd (track_workflow world_twins "clip.mp4" "/tmp/tmpvideo01.mp4"
                [describe_default; describe_default] initial_state))
    = log initial_state
      ++ [UiSubheader "Available Audio Tracks"; UiSpinner "Extracting audio...";
          CallFfmpeg ["ffmpeg"; "-i"; "/tmp/tmpvideo01.mp4";
                      "-map"; "0:a:" +:+ dec (default 0 (selection world_twins));
                      "-vn"; "-acodec"; "pcm_s16le"; "-ar"; "44100"; "-y";
                      tmp_audio world_twins]]
      ++ rest /\
    forallb not_ffmpeg_call rest = true.
Proof.
  split; [cbn; lia|]. split; [reflexivity|].
  apply (extractor_invocation world_twins); [cbn; lia|reflexivity].
Defined.

(** C4, as stated, fails: when ffmpeg exits with status 1 and its stderr is
    not valid UTF-8, the banner carries the decoding error under another
    prefix; the stderr text is not shown. *)
Lemma undecodable_stderr_is_not_shown :
  run_ffmpeg world_ffmpeg_garbled (ffmpeg_cmd "/tmp/tmpvideo01.mp4" 0 "/tmp/tmpaudio01.wav")
  = Ok (1%Z, [Byte.xe9]) /\
  extract_audio_track world_ffmpeg_garbled "/tmp/tmpvideo01.mp4" 0 "/tmp/tmpaudio01.wav"
    initial_state
  = (Ok false,
     add_log initial_state
       [CallFfmpeg (ffmpeg_cmd "/tmp/tmpvideo01.mp4" 0 "/tmp/tmpaudio01.wav");
        UiError "Error extracting audio track: 'utf-8' codec can't decode byte 0xe9 in position 0: unexpected end of data"]) /\
  filter (fun ev => is_error_banner ev = true) (log (run world_ffmpeg_garbled))
  = [UiError "Error extracting audio track: 'utf-8' codec can't decode byte 0xe9 in position 0: unexpected end of data"] /\
  forall text, UiError ("Error extracting audio: " +:+ text) ∉ log (run world_ffmpeg_garbled).
Proof.
  split; [reflexivity|]. split; [reflexivity|]. split; [vm_compute; reflexivity|].
  intros text Hin.
  vm_compute in Hin.
  repeat (apply elem_of_cons in Hin as [Hin|Hin]; [discriminate Hin|]).
  by apply elem_of_nil in Hin.
Qed.

(** C4, amended: when ffmpeg exits non-zero, the extractor shows one error
    banner and returns failure; the banner is "Error extracting audio: "
    followed by ffmpeg's stderr verbatim when stderr decodes, and
    "Error extracting audio track: " followed by the decoding error when it
    does not; the caller then does nothing but clean up: no enhancement, no
    conversion, no success banner, no player and no download button. *)
Theorem extraction_failure_aborts (w : world) (filename video_path : string)
    (audio_streams : list info) (st : state) (returncode : Z) (stderr : list Byte.byte) :
  default 0 (selection w) < length audio_streams ->
  button_pressed w = true ->
  run_ffmpeg w (ffmpeg_cmd video_path (default 0 (selection w)) (tmp_audio w))
  = Ok (returncode, stderr) ->
  returncode <> 0%Z ->
  exists msg tail,
    (forall text, decode w stderr = Ok text -> msg = "Error extracting audio: " +:+ text) /\
    (forall e, decode w stderr = Raised e -> msg = "Error extracting audio track: " +:+ e) /\
    (forall st0, extract_audio_track w video_path (default 0 (selection w)) (tmp_audio w) st0
       = (Ok false,
          add_log st0 [CallFfmpeg (ffmpeg_cmd video_path (default 0 (selection w))
                                     (tmp_audio w));
                       UiError msg])) /\
    fst (track_workflow w filename video_path audio_streams st) = Ok tt /\
    log (snd (track_workflow w filename video_path audio_streams st))
    = log st
      ++ [UiSubheader "Available Audio Tracks"; UiSpinner "Extracting audio...";
          CallFfmpeg (ffmpeg_cmd video_path (default 0 (selection w)) (tmp_audio w));
          UiError msg]
      ++ tail /\
    forallb is_cleanup_event tail = true.
Proof.
  intros Hk Hb Hrun Hrc. rewrite track_workflow_pressed by done.
  set (k := default 0 (selection w)) in *.
  set (st1 := add_log st _).
  destruct (extract_audio_track_fail w video_path k (tmp_audio w) _ _ Hrun Hrc)
    as (msg & Hmsg & Hraised & Hfail).
  unfold extraction_body.
  rewrite (guarded_bind_ok (create_file (tmp_audio w)) _ _ _ st1 tt
             {| fs := {[tmp_audio w]} ∪ fs st1; log := log st1; locals := locals st1 |})
    by reflexivity.
  set (st2 := {| fs := _; log := log st1; locals := _ |}).
  rewrite (guarded_bind_ok _ _ _ _ st2 false _ (Hfail st2)).
  unfold try_finally, try_except, ret.
  set (st3 := add_log st2 _).
  destruct (cleanup_emits w st3) as (tail & Hlog & Htail).
  pose proof (cleanup_returns w st3) as Hret.
  destruct (cleanup w st3) as [[[]|e] st4]; cbn [fst snd] in *; [|done].
  exists msg, tail. split; [done|]. split; [done|]. split; [done|]. split; [done|].
  split; [|done].
  rewrite Hlog. unfold st3, st2, st1, add_log. cbn [log].
  rewrite <- !app_assoc. reflexivity.
Qed.

Lemma extraction_failure_aborts_witness :
  default 0 (selection world_ffmpeg_fails) < length [describe_default] /\
  button_pressed world_ffmpeg_fails = true /\
  exists tail,
    log (snd (track_workflow world_ffmpeg_fails "clip.mp4" "/tmp/tmpvideo01.mp4"
                [describe_default] initial_state))
    = [UiSubheader "Available Audio Tracks"; UiSpinner "Extracting audio...";
       CallFfmpeg (ffmpeg_cmd "/tmp/tmpvideo01.mp4" 0 "/tmp/tmpaudio01.wav");
       UiError "Error extracting audio: Stream map matches no streams."]
      ++ tail /\
    forallb is_cleanup_event tail = true.
Proof.
  split; [cbn; lia|]. split; [reflexivity|].
  destruct (extraction_failure_aborts world_ffmpeg_fails "clip.mp4" "/tmp/tmpvideo01.mp4"
              [describe_default] initial_state 1
              (String.list_byte_of_string "Stream map matches no streams."))
    as (msg & tail & Hmsg & _ & _ & _ & Hlog & Htail);
    [cbn; lia|reflexivity|reflexivity|lia|].
  exists tail. split; [|exact Htail].
  rewrite Hlog. rewrite (Hmsg "Stream map matches no streams." eq_refl). reflexivity.
Defined.

(** ** Format Converter *)

(** C7: with output format "wav" the converter makes no pydub call and
    creates no file: the log and the file system are untouched, and the
    path it was given becomes [final_output_path]. *)
Theorem wav_output_reuses_path (w : world) (final_audio_path : string) (st : state) :
  output_format w = wav ->
  conversion_block w final_audio_path st
  = (Ok final_audio_path,
     {| fs := fs st; log := log st;
        locals := <["final_output_path" := final_audio_path]> (locals st) |}).
Proof. intros Hfmt. unfold conversion_block. by rewrite Hfmt. Qed.

Lemma wav_output_reuses_path_witness :
  output_format world_wav = wav /\
  conversion_block world_wav "/tmp/tmpaudio01.wav" initial_state
  = (Ok "/tmp/tmpaudio01.wav",
     {| fs := ∅; log := [];
        locals := <["final_output_path" := "/tmp/tmpaudio01.wav"]> ∅ |}).
Proof.
  split; [reflexivity|].
  apply (wav_output_reuses_path world_wav "/tmp/tmpaudio01.wav" initial_state).
  reflexivity.
Defined.

(** ** Session Orchestrator *)

(** On the extraction path the [finally] block does unlink the upload and
    every intermediate file. *)
Example successful_run_unlinks_everything :
  fs (run world_ok) = ∅ /\
  filter (fun ev => is_unlink_call ev = true) (log (run world_ok))
  = [CallUnlink "/tmp/tmpvideo01.mp4"; CallUnlink "/tmp/tmpaudio01.wav";
     CallUnlink "/tmp/tmpaudio01_enhanced.wav"; CallUnlink "/tmp/tmpoutput1.mp3"].
Proof. split; vm_compute; reflexivity. Qed.

(** When ffmpeg fails, [audio_path] is never bound: the raw WAV temporary
    file is not among the names the clean-up loop looks up and stays. *)
Example failed_extraction_leaves_raw_wav :
  fs (run world_ffmpeg_fails) = {[ "/tmp/tmpaudio01.wav" ]} /\
  filter (fun ev => is_unlink_call ev = true) (log (run world_ffmpeg_fails))
  = [CallUnlink "/tmp/tmpvideo01.mp4"].
Proof. split; vm_compute; reflexivity. Qed.

(** C1 (the code departs from it): when the probe returns no tracks the
    script reports "No audio tracks found" and stops; the [finally] block
    belongs to the extraction attempt only, so no unlink is attempted and
    the uploaded video's temporary file is still there when the run ends. *)
Theorem no_audio_tracks_leaves_upload (w : world) (filename : string) (size : Z) :
  uploaded_file w = Some (filename, size) ->
  probed w = Ok [] ->
  tmp_video w ∈ fs (run w) /\
  forallb not_unlink_call (log (run w)) = true /\
  last (log (run w)) = Some (UiError "No audio tracks found in the video file.").
Proof.
  intros Hup Hprobe. unfold run.
  destruct (session_after_probe w filename size Hup) as (streams & evs & Hp & Hevs & ->).
  rewrite Hprobe in Hp. injection Hp as <-.
  cbn [track_workflow emit snd add_log uploaded_state fs log].
  split; [set_solver|]. split; [|by rewrite last_snoc].
  rewrite !forallb_app. cbn [forallb not_unlink_call is_unlink_call negb andb].
  rewrite andb_true_r.
  clear -Hevs. induction evs as [|ev evs IH]; [done|].
  cbn [forallb] in *. apply andb_true_iff in Hevs as [Hev Hevs].
  apply andb_true_iff in Hev as [-> _]. by apply IH.
Qed.

Lemma no_audio_tracks_leaves_upload_witness :
  uploaded_file world_no_audio = Some ("clip.mp4", 1048576%Z) /\
  probed world_no_audio = Ok [] /\
  tmp_video world_no_audio ∈ fs (run world_no_audio) /\
  forallb not_unlink_call (log (run world_no_audio)) = true /\
  last (log (run world_no_audio))
  = Some (UiError "No audio tracks found in the video file.").
Proof.
  split; [reflexivity|]. split; [reflexivity|].
  apply (no_audio_tracks_leaves_upload world_no_audio "clip.mp4" 1048576%Z);
    reflexivity.
Defined.

(** ** Enhancer *)

(** C2, as stated, fails: on a silent track the run raises nothing, shows
    no error banner, and ends with the success banner and the download
    button. *)
Lemma silent_track_is_still_delivered :
  librosa_load world_silent "/tmp/tmpaudio01.wav" = Ok (silence, 44100%Z) /\
  silent silence = true /\
  fst (session world_silent initial_state) = Ok tt /\
  existsb is_error_banner (log (run world_silent)) = false /\
  UiSuccess "Audio extracted successfully!" ∈ log (run world_silent) /\
  existsb is_download_button (log (run world_silent)) = true.
Proof.
  repeat split; try (vm_compute; reflexivity).
  apply list_elem_of_In. vm_compute. tauto.
Qed.

(** C2, amended: for an all-zero input of at least two samples, the peak
    that normalisation divides by is zero and the division is unguarded,
    but under numpy's array semantics it raises nothing: every sample
    becomes NaN, the enhancer writes that signal to the enhanced path and
    returns normally, so the workflow goes on to conversion. *)
Theorem silent_input_yields_nan (w : world) (audio_path : string) (st : state)
    (y : list spec_float) (sr : Z) :
  librosa_load w audio_path = Ok (y, sr) ->
  silent y = true -> 2 <= length y ->
  sf_write w (str_replace audio_path ".wav" "_enhanced.wav")
    (replicate (length y) S754_nan) sr = None ->
  exists ye,
    preemphasis y = Ok ye /\
    np_max (np_abs ye) = Ok (S754_zero false) /\
    peak_normalize ye = Ok (replicate (length y) S754_nan) /\
    fst (enhancement_block w audio_path st)
    = Ok (str_replace audio_path ".wav" "_enhanced.wav") /\
    log (snd (enhancement_block w audio_path st))
    = log st ++ [UiInfo "Applying ML audio enhancement...";
                 CallLoad audio_path;
                 CallSfWrite (str_replace audio_path ".wav" "_enhanced.wav")
                   (replicate (length y) S754_nan) sr].
Proof.
  intros Hload Hs Hlen Hwrite.
  destruct (preemphasis_silent y Hs Hlen) as (ye & Hpre & Hl & Hse).
  assert (Hne : ye <> []) by (intros ->; cbn in Hl; lia).
  exists ye. split; [done|]. split; [by apply np_max_silent|].
  pose proof (peak_normalize_silent ye Hse Hne) as Hnorm. rewrite Hl in Hnorm.
  split; [done|].
  by rewrite (enhancement_block_run w audio_path st y sr ye _ Hload Hpre Hnorm Hwrite).
Qed.

Lemma silent_input_yields_nan_witness :
  librosa_load world_silent "/tmp/tmpaudio01.wav" = Ok (silence, 44100%Z) /\
  silent silence = true /\ 2 <= length silence /\
  exists ye,
    preemphasis silence = Ok ye /\
    np_max (np_abs ye) = Ok (S754_zero false) /\
    peak_normalize ye = Ok [S754_nan; S754_nan; S754_nan] /\
    fst (enhancement_block world_silent "/tmp/tmpaudio01.wav" initial_state)
    = Ok (str_replace "/tmp/tmpaudio01.wav" ".wav" "_enhanced.wav") /\
    log (snd (enhancement_block world_silent "/tmp/tmpaudio01.wav" initial_state))
    = log initial_state
      ++ [UiInfo "Applying ML audio enhancement...";
          CallLoad "/tmp/tmpaudio01.wav";
          CallSfWrite (str_replace "/tmp/tmpaudio01.wav" ".wav" "_enhanced.wav")
            [S754_nan; S754_nan; S754_nan] 44100%Z].
Proof.
  split; [reflexivity|]. split; [reflexivity|]. split; [cbn; lia|].
  apply (silent_input_yields_nan world_silent "/tmp/tmpaudio01.wav" initial_state
           silence 44100%Z); [reflexivity|reflexivity|cbn; lia|reflexivity].
Defined.

(** C6, as stated, fails on a silent input: the normalised signal has peak
    NaN, not 1.0. *)
Lemma silent_peak_is_not_one :
  exists ye yn,
    preemphasis silence = Ok ye /\ peak_normalize ye = Ok yn /\
    np_max (np_abs yn) = Ok S754_nan /\
    np_max (np_abs yn) <> Ok f32_one.
Proof. eexists _, _. repeat split; try (vm_compute; reflexivity). vm_compute. congruence. Qed.

(** C6, amended: given a WAV path [stem.wav] whose samples pre-emphasise to
    finite values that are not all zero, the enhancer applies pre-emphasis,
    then divides every sample by the maximal absolute value, which makes the
    peak exactly 1.0; it writes the result to the path obtained by putting
    "_enhanced" before the extension ([stem_enhanced.wav] when ".wav" does
    not occur inside [stem]); it unlinks nothing, so the input file stays. *)
Theorem enhancer_contract (w : world) (stem : string) (st : state)
    (y ye : list spec_float) (sr : Z) :
  librosa_load w (stem +:+ ".wav") = Ok (y, sr) ->
  preemphasis y = Ok ye ->
  forallb finite32 ye = true -> silent ye = false ->
  (forall data,
     sf_write w (str_replace (stem +:+ ".wav") ".wav" "_enhanced.wav") data sr = None) ->
  exists yn enhanced,
    peak_normalize ye = Ok yn /\
    np_max (np_abs yn) = Ok f32_one /\
    enhanced = str_replace stem ".wav" "_enhanced.wav" +:+ "_enhanced.wav" /\
    (occurs ".wav" stem = false -> enhanced = stem +:+ "_enhanced.wav") /\
    enhancement_block w (stem +:+ ".wav") st
    = (Ok enhanced,
       {| fs := {[enhanced]} ∪ fs st;
          log := log st ++ [UiInfo "Applying ML audio enhancement...";
                            CallLoad (stem +:+ ".wav");
                            CallSfWrite enhanced yn sr];
          locals := <["final_audio_path" := enhanced]>
                      (<["enhanced_path" := enhanced]> (locals st)) |}).
Proof.
  intros Hload Hpre Hfin Hsil Hwrite.
  destruct (peak_normalize_peak ye Hfin Hsil) as (yn & Hnorm & _ & Hpeak).
  exists yn, (str_replace stem ".wav" "_enhanced.wav" +:+ "_enhanced.wav").
  split; [done|]. split; [done|]. split; [done|]. split.
  - intros Hocc. rewrite <- enhanced_path_of_wav. by apply enhanced_path_simple.
  - rewrite <- enhanced_path_of_wav.
    by apply (enhancement_block_run w (stem +:+ ".wav") st y sr ye yn).
Qed.

Lemma enhancer_contract_witness :
  librosa_load world_ok ("/tmp/tmpaudio01" +:+ ".wav") = Ok (tone, 44100%Z) /\
  preemphasis tone = Ok tone_emphasised /\
  forallb finite32 tone_emphasised = true /\ silent tone_emphasised = false /\
  exists yn enhanced,
    peak_normalize tone_emphasised = Ok yn /\
    np_max (np_abs yn) = Ok f32_one /\
    enhanced = "/tmp/tmpaudio01_enhanced.wav" /\
    fst (enhancement_block world_ok ("/tmp/tmpaudio01" +:+ ".wav") initial_state)
    = Ok enhanced.
Proof.
  split; [reflexivity|]. split; [reflexivity|]. split; [reflexivity|].
  split; [reflexivity|].
  destruct (enhancer_contract world_ok "/tmp/tmpaudio01" initial_state
              tone tone_emphasised 44100%Z)
    as (yn & enhanced & Hn & Hp & He & Hs & Hrun);
    [reflexivity|reflexivity|reflexivity|reflexivity|intros; reflexivity|].
  exists yn, enhanced. split; [exact Hn|]. split; [exact Hp|].
  split; [apply Hs; reflexivity|]. by rewrite Hrun.
Defined.

(** Pre-emphasis of a unit impulse changes again when the filter is applied
    a second time, whatever the two initial filter states are. *)
Lemma lfilter1_not_idempotent (z z' : spec_float) :
  lfilter1 f32_one (SFopp f32_coef) z' (lfilter1 f32_one (SFopp f32_coef) z impulse)
  <> lfilter1 f32_one (SFopp f32_coef) z impulse.
Proof.
  unfold impulse. cbn [lfilter1]. intros E.
  injection E as _ _ E. vm_compute in E. discriminate E.
Qed.

(** C9: on a signal of finite samples whose peak magnitude is exactly 1.0,
    peak normalisation leaves the peak at exactly 1.0; pre-emphasis is not
    idempotent. *)
Theorem normalization_keeps_unit_peak :
  (forall y,
     forallb finite32 y = true -> np_max (np_abs y) = Ok f32_one ->
     exists yn, peak_normalize y = Ok yn /\ np_max (np_abs yn) = Ok f32_one) /\
  (exists y ye yee,
     preemphasis y = Ok ye /\ preemphasis ye = Ok yee /\ yee <> ye).
Proof.
  split.
  - intros y Hfin Hpeak.
    destruct (peak_normalize_peak y Hfin (peak_one_not_silent y Hpeak))
      as (yn & Hn & _ & Hp).
    by exists yn.
  - exists impulse. eexists _, _. split; [reflexivity|]. split; [reflexivity|].
    apply lfilter1_not_idempotent.
Qed.

Lemma normalization_keeps_unit_peak_witness :
  forallb finite32 tone_enhanced = true /\
  np_max (np_abs tone_enhanced) = Ok f32_one /\
  exists yn, peak_normalize tone_enhanced = Ok yn /\ np_max (np_abs yn) = Ok f32_one.
Proof.
  split; [reflexivity|]. split; [reflexivity|].
  apply (proj1 normalization_keeps_unit_peak tone_enhanced); reflexivity.
Defined.


(* ===================================================================== *)
(** * Part IV: further properties of the script                          *)
(* ===================================================================== *)

(** ** Stream Prober *)

Lemma describe_stream_well_formed item :
  well_formed_entry item = true -> exists i, describe_stream item = Ok i.
Proof.
  destruct item as [| | | | | |d]; try done. cbn [well_formed_entry].
  unfold tags_usable, describe_stream, tag_get.
  destruct (d !! "tags") as [[| | | | | |t]|]; try done; intros _; eexists; reflexivity.
Qed.

Lemma describe_stream_malformed item :
  well_formed_entry item = false -> exists e, describe_stream item = Raised e.
Proof.
  destruct item as [| | | | | |d]; try (intros _; eexists; reflexivity).
  cbn [well_formed_entry]. unfold tags_usable, describe_stream, tag_get.
  destruct (d !! "tags") as [[| | | | | |t]|]; try done; intros _; eexists; reflexivity.
Qed.

Lemma describe_all_well_formed items :
  forallb well_formed_entry items = true ->
  exists infos, describe_all items = Ok infos /\
                Forall2 (fun item i => describe_stream item = Ok i) items infos.
Proof.
  induction items as [|item items IH]; cbn [forallb describe_all].
  - intros _. exists []. split; [done|constructor].
  - intros H. apply andb_true_iff in H as [Hitem Hitems].
    destruct (describe_stream_well_formed item Hitem) as (i & Hi).
    destruct (IH Hitems) as (infos & Hall & HF).
    exists (i :: infos). rewrite Hi, Hall. split; [done|]. by constructor.
Qed.

Lemma describe_all_malformed items :
  forallb well_formed_entry items = false -> exists e, describe_all items = Raised e.
Proof.
  induction items as [|item items IH]; cbn [forallb describe_all]; [done|].
  intros H. destruct (well_formed_entry item) eqn:Hitem.
  - destruct (describe_stream_well_formed item Hitem) as (i & ->).
    destruct (IH H) as (e & ->). by exists e.
  - destruct (describe_stream_malformed item Hitem) as (e & ->). by exists e.
Qed.

(** X1: the prober never raises and touches nothing but the log; it either
    reports nothing, or reports exactly one error and then returns the
    empty list: an error banner never comes with a partial track list. *)
Theorem prober_reports_or_lists (w : world) (video_path : string) (st : state) :
  exists streams evs,
    get_audio_streams w video_path st
    = (Ok streams, add_log st (CallFfprobe (ffprobe_cmd video_path) :: evs)) /\
    (evs = [] \/ (streams = [] /\ exists msg, evs = [UiError msg])).
Proof.
  unfold get_audio_streams, try_except, bind, lift, ret, raise, emit, add_log.
  assert (Herr : forall msg,
    exists streams0 evs,
      (Ok ([] : list info),
       {| fs := fs st;
          log := (log st ++ [CallFfprobe (ffprobe_cmd video_path)]) ++ [UiError msg];
          locals := locals st |})
      = (Ok streams0,
         {| fs := fs st;
            log := log st ++ CallFfprobe (ffprobe_cmd video_path) :: evs;
            locals := locals st |}) /\
      (evs = [] \/ (streams0 = [] /\ exists msg0, evs = [UiError msg0]))).
  { intros msg. exists [], [UiError msg]. split; [by rewrite <- app_assoc|].
    right. split; [done|]. by exists msg. }
  destruct (run_ffprobe w (ffprobe_cmd video_path)) as [[[rc out] err]|e];
    cbn [fs log locals]; [|by apply Herr].
  destruct (negb (rc =? 0)%Z); cbn [fs log locals]; [by apply Herr|].
  destruct (json_loads w out) as [data|e]; cbn [fs log locals]; [|by apply Herr].
  destruct data as [| | | | | |d]; cbn [fs log locals]; try (by apply Herr).
  destruct (py_iter (dict_get d "streams" (PList []))) as [items|e];
    cbn [fs log locals]; [|by apply Herr].
  destruct (describe_all items) as [infos|e]; cbn [fs log locals]; [|by apply Herr].
  exists infos, []. split; [done|]. by left.
Qed.

(** X2: when ffprobe exits with 0 and prints an object whose [streams]
    (an empty list when the key is missing) holds only well-formed entries,
    the prober reports nothing and returns one descriptor per entry, in
    ffprobe's order. *)
Theorem prober_lists_every_stream (w : world) (video_path : string) (st : state)
    (stdout stderr : string) (d : gmap string pyval) (items : list pyval) :
  run_ffprobe w (ffprobe_cmd video_path) = Ok (0%Z, stdout, stderr) ->
  json_loads w stdout = Ok (PDict d) ->
  dict_get d "streams" (PList []) = PList items ->
  forallb well_formed_entry items = true ->
  exists infos,
    get_audio_streams w video_path st
    = (Ok infos, add_log st [CallFfprobe (ffprobe_cmd video_path)]) /\
    Forall2 (fun item i => describe_stream item = Ok i) items infos.
Proof.
  intros Hrun Hjson Hstreams Hwf.
  destruct (describe_all_well_formed items Hwf) as (infos & Hall & HF).
  exists infos. split; [|done].
  unfold get_audio_streams, try_except, bind, lift, ret, emit, add_log.
  rewrite Hrun. cbn [Z.eqb negb fs log locals]. rewrite Hjson. cbn [fs log locals].
  rewrite Hstreams. cbn [py_iter]. by rewrite Hall.
Qed.

Lemma prober_lists_every_stream_witness :
  run_ffprobe world_twins (ffprobe_cmd "/tmp/tmpvideo01.mp4")
  = Ok (0%Z, "{...}", EmptyString) /\
  forallb well_formed_entry [PDict stream_eng; PDict stream_eng] = true /\
  exists infos,
    get_audio_streams world_twins "/tmp/tmpvideo01.mp4" initial_state
    = (Ok infos, add_log initial_state [CallFfprobe (ffprobe_cmd "/tmp/tmpvideo01.mp4")]) /\
    Forall2 (fun item i => describe_stream item = Ok i)
      [PDict stream_eng; PDict stream_eng] infos.
Proof.
  split; [reflexivity|]. split; [reflexivity|].
  apply (prober_lists_every_stream world_twins "/tmp/tmpvideo01.mp4" initial_state
           "{...}" EmptyString
           {[ "streams" := PList [PDict stream_eng; PDict stream_eng] ]}
           [PDict stream_eng; PDict stream_eng]);
    reflexivity.
Defined.

(** X3: one entry the prober cannot describe (not an object, or with a
    [tags] value that is not an object) spoils the whole probe: the good
    entries are dropped too, an error is reported and the list is empty. *)
Theorem malformed_entry_discards_all (w : world) (video_path : string) (st : state)
    (stdout stderr : string) (d : gmap string pyval) (items : list pyval) :
  run_ffprobe w (ffprobe_cmd video_path) = Ok (0%Z, stdout, stderr) ->
  json_loads w stdout = Ok (PDict d) ->
  dict_get d "streams" (PList []) = PList items ->
  forallb well_formed_entry items = false ->
  exists e,
    get_audio_streams w video_path st
    = (Ok [], add_log st [CallFfprobe (ffprobe_cmd video_path);
                          UiError ("Error getting audio streams: " +:+ e)]).
Proof.
  intros Hrun Hjson Hstreams Hbad.
  destruct (describe_all_malformed items Hbad) as (e & Hall).
  exists e.
  unfold get_audio_streams, try_except, bind, lift, ret, emit, add_log.
  rewrite Hrun. cbn [Z.eqb negb fs log locals]. rewrite Hjson. cbn [fs log locals].
  rewrite Hstreams. cbn [py_iter]. rewrite Hall. cbn [fs log locals].
  by rewrite <- app_assoc.
Qed.

Lemma malformed_entry_discards_all_witness :
  run_ffprobe world_bad_entry (ffprobe_cmd "/tmp/tmpvideo01.mp4")
  = Ok (0%Z, "{...}", EmptyString) /\
  forallb well_formed_entry [PDict stream_eng; PInt 7] = false /\
  exists e,
    get_audio_streams world_bad_entry "/tmp/tmpvideo01.mp4" initial_state
    = (Ok [], add_log initial_state
                [CallFfprobe (ffprobe_cmd "/tmp/tmpvideo01.mp4");
                 UiError ("Error getting audio streams: " +:+ e)]).
Proof.
  split; [reflexivity|]. split; [reflexivity|].
  apply (malformed_entry_discards_all world_bad_entry "/tmp/tmpvideo01.mp4" initial_state
           "{...}" EmptyString {[ "streams" := PList [PDict stream_eng; PInt 7] ]}
           [PDict stream_eng; PInt 7]);
    reflexivity.
Defined.

(** ** Track selection *)

(** X4: the select box offers exactly one label per descriptor, in the
    descriptors' order: entry [k] is the label built from position [k] and
    descriptor [k]. *)
Theorem track_options_match_streams (w : world) (audio_streams : list info) :
  length (track_options w audio_streams) = length audio_streams /\
  forall k, track_options w audio_streams !! k = track_label w k <$> audio_streams !! k.
Proof.
  split; [apply track_options_from_length|].
  intros k. unfold track_options. by rewrite track_options_from_lookup.
Qed.

(** Whatever position the widget reports, lines 134-135 end with a valid
    position of the track list. *)
Lemma selected_index_total (w : world) (audio_streams : list info) :
  audio_streams <> [] ->
  exists k, selected_index w audio_streams = Ok k /\ k < length audio_streams.
Proof.
  intros Hne.
  destruct (decide (default 0 (selection w) < length audio_streams)) as [Hk|Hk].
  - exists (default 0 (selection w)). split; [by apply selected_index_position|done].
  - destruct audio_streams as [|s0 rest]; [done|]. exists 0. split; [|cbn; lia].
    unfold selected_index, st_selectbox, track_options.
    rewrite track_options_from_lookup.
    rewrite (lookup_ge_None_2 (s0 :: rest) (default 0 (selection w))) by lia.
    cbn [fmap option_fmap option_map track_options_from lookup list_lookup default].
    cbn [list_index]. by rewrite String.eqb_refl.
Qed.

(** ** Track Extractor *)

(** What [extract_audio_track] returns and reports depends on ffmpeg alone,
    not on the state it starts from. *)
Lemma extract_audio_track_result (w : world) (video_path : string) (k : nat)
    (output_path : string) :
  exists evs,
    forallb is_error_banner evs = true /\
    (ffmpeg_succeeded w (ffmpeg_cmd video_path k output_path) = true -> evs = []) /\
    (ffmpeg_succeeded w (ffmpeg_cmd video_path k output_path) = false ->
     exists msg, evs = [UiError msg]) /\
    forall st,
      extract_audio_track w video_path k output_path st
      = (Ok (ffmpeg_succeeded w (ffmpeg_cmd video_path k output_path)),
         add_log st (CallFfmpeg (ffmpeg_cmd video_path k output_path) :: evs)).
Proof.
  unfold extract_audio_track, ffmpeg_succeeded, try_except, bind, lift, ret, emit, add_log.
  destruct (run_ffmpeg w _) as [[rc err]|e]; cbn [fs log locals].
  - destruct (rc =? 0)%Z; cbn [negb].
    + exists []. repeat split; try done.
    + destruct (decode w err) as [text|e]; cbn [fs log locals].
      * exists [UiError ("Error extracting audio: " +:+ text)].
        split; [done|]. split; [done|]. split; [by eexists|].
        intros st. by rewrite <- app_assoc.
      * exists [UiError ("Error extracting audio track: " +:+ e)].
        split; [done|]. split; [done|]. split; [by eexists|].
        intros st. by rewrite <- app_assoc.
  - exists [UiError ("Error extracting audio track: " +:+ e)].
    split; [done|]. split; [done|]. split; [by eexists|].
    intros st. by rewrite <- app_assoc.
Qed.

(** X5: [extract_audio_track] never raises, and it returns [True] exactly
    when ffmpeg could be run and exited with status 0; a missing binary, a
    non-zero exit and an undecodable stderr all give [False]. *)
Theorem extractor_true_iff_exit_zero (w : world) (video_path : string) (k : nat)
    (output_path : string) (st : state) :
  exists ok,
    fst (extract_audio_track w video_path k output_path st) = Ok ok /\
    (ok = true <->
     exists stderr,
       run_ffmpeg w (ffmpeg_cmd video_path k output_path) = Ok (0%Z, stderr)).
Proof.
  destruct (extract_audio_track_result w video_path k output_path)
    as (evs & _ & _ & _ & Hrun).
  exists (ffmpeg_succeeded w (ffmpeg_cmd video_path k output_path)).
  rewrite Hrun. split; [done|]. unfold ffmpeg_succeeded.
  destruct (run_ffmpeg w _) as [[rc err]|e].
  - split.
    + intros H. apply Z.eqb_eq in H as ->. by exists err.
    + intros (stderr & [= -> _]). done.
  - split; [done|]. by intros (stderr & ?).
Qed.

(** ** The finally block *)

Section Cleanup.
Variable w : world.

Lemma cleanup_one_spec path_var st :
  cleanup_one w path_var st
  = (Ok tt,
     match locals st !! path_var with
     | Some path =>
         if bool_decide (path ∈ fs st) then
           match unlink w path with
           | None =>
               {| fs := fs st ∖ {[path]}; log := log st ++ [CallUnlink path];
                  locals := locals st |}
           | Some unlink_err =>
               {| fs := fs st;
                  log := log st ++ [CallUnlink path;
                                    UiWarning ("Could not delete " +:+ path_var
                                               +:+ ": " +:+ unlink_err)];
                  locals := locals st |}
           end
         else st
     | None => st
     end).
Proof.
  unfold cleanup_one, bind, get_locals, path_exists, try_except, emit, attempt,
    remove_file, raise, ret.
  destruct (locals st !! path_var) as [path|]; [|by destruct st].
  cbn [fst snd]. case_bool_decide; [|by destruct st].
  destruct (unlink w path) as [e|]; cbn [fs log locals]; [|done].
  by rewrite <- app_assoc.
Qed.

Lemma for_each_cleanup_cons path_var rest st :
  for_each (path_var :: rest) (cleanup_one w) st
  = for_each rest (cleanup_one w) (snd (cleanup_one w path_var st)).
Proof. cbn [for_each]. unfold bind. by rewrite cleanup_one_spec. Qed.

Lemma cleanup_one_locals path_var st :
  locals (snd (cleanup_one w path_var st)) = locals st.
Proof.
  rewrite cleanup_one_spec. cbn [snd].
  destruct (locals st !! path_var); [|done].
  case_bool_decide; [|done]. by destruct (unlink w s).
Qed.

Lemma cleanup_one_fs_subset path_var st :
  fs (snd (cleanup_one w path_var st)) ⊆ fs st.
Proof.
  rewrite cleanup_one_spec. cbn [snd].
  destruct (locals st !! path_var); [|done].
  case_bool_decide; [|done].
  destruct (unlink w s); cbn [fs]; [done|by apply subseteq_difference_l].
Qed.

(** The loop keeps a file unless a name points at it and unlinking it
    succeeds. *)
Lemma cleanup_loop_keeps names : forall st path,
  path ∈ fs st ->
  (forall path_var, path_var ∈ names ->
     locals st !! path_var = Some path -> unlink w path <> None) ->
  path ∈ fs (snd (for_each names (cleanup_one w) st)).
Proof.
  induction names as [|n names IH]; intros st path Hin Hkeep; [done|].
  rewrite for_each_cleanup_cons. apply IH.
  - rewrite cleanup_one_spec. cbn [snd].
    destruct (locals st !! n) as [q|] eqn:Eq; [|done].
    case_bool_decide; [|done].
    destruct (unlink w q) as [e|] eqn:Eu; cbn [fs]; [done|].
    assert (q <> path).
    { intros ->. apply (Hkeep n); [apply list_elem_of_here|done|done]. }
    apply elem_of_difference. split; [done|]. by intros ?%elem_of_singleton.
  - intros path_var Hv Hl. rewrite cleanup_one_locals in Hl.
    apply (Hkeep path_var); [by apply list_elem_of_further|done].
Qed.

Lemma cleanup_loop_fs_subset names : forall st,
  fs (snd (for_each names (cleanup_one w) st)) ⊆ fs st.
Proof.
  induction names as [|n names IH]; intros st; [done|].
  rewrite for_each_cleanup_cons.
  etrans; [apply IH|apply cleanup_one_fs_subset].
Qed.

Lemma cleanup_loop_locals names : forall st,
  locals (snd (for_each names (cleanup_one w) st)) = locals st.
Proof.
  induction names as [|n names IH]; intros st; [done|].
  by rewrite for_each_cleanup_cons, IH, cleanup_one_locals.
Qed.

Lemma cleanup_loop_log names st :
  exists evs, log (snd (for_each names (cleanup_one w) st)) = log st ++ evs /\
              forallb is_cleanup_event evs = true.
Proof.
  assert (He : emits is_cleanup_event (for_each names (cleanup_one w))).
  { unfold cleanup_one. emits_auto. }
  apply He.
Qed.

(** A bound path whose unlink succeeds is gone after the loop. *)
Lemma cleanup_loop_deletes names : forall st path_var path,
  path_var ∈ names ->
  locals st !! path_var = Some path ->
  unlink w path = None ->
  path ∉ fs (snd (for_each names (cleanup_one w) st)).
Proof.
  induction names as [|n names IH]; intros st path_var path Hn Hl Hu.
  - by apply elem_of_nil in Hn.
  - rewrite for_each_cleanup_cons.
    apply elem_of_cons in Hn as [->|Hn].
    + intros Hin. apply cleanup_loop_fs_subset in Hin. revert Hin.
      rewrite cleanup_one_spec. cbn [snd]. rewrite Hl.
      case_bool_decide; [|done]. rewrite Hu. cbn [fs].
      intros [_ Hnot]%elem_of_difference. apply Hnot. by apply elem_of_singleton.
    + apply (IH _ path_var); [done| |done]. by rewrite cleanup_one_locals.
Qed.

(** A bound, existing path whose unlink fails yields the warning for that
    very name. *)
Lemma cleanup_loop_warns names : forall st path_var path unlink_err,
  path_var ∈ names ->
  locals st !! path_var = Some path ->
  path ∈ fs st ->
  unlink w path = Some unlink_err ->
  UiWarning ("Could not delete " +:+ path_var +:+ ": " +:+ unlink_err)
  ∈ log (snd (for_each names (cleanup_one w) st)).
Proof.
  induction names as [|n names IH]; intros st path_var path e Hn Hl Hin Hu.
  - by apply elem_of_nil in Hn.
  - rewrite for_each_cleanup_cons.
    apply elem_of_cons in Hn as [->|Hn].
    + destruct (cleanup_loop_log names (snd (cleanup_one w n st))) as (evs & -> & _).
      apply elem_of_app. left.
      rewrite cleanup_one_spec. cbn [snd]. rewrite Hl.
      rewrite bool_decide_eq_true_2 by done. rewrite Hu. cbn [log].
      apply elem_of_app. right. apply list_elem_of_further, list_elem_of_here.
    + apply (IH _ path_var path e); [done| | |done].
      * by rewrite cleanup_one_locals.
      * pose proof (cleanup_loop_keeps [n] st path Hin) as Hk.
        rewrite for_each_cleanup_cons in Hk. cbn [for_each ret snd] in Hk.
        apply Hk. intros ? _ _. by rewrite Hu.
Qed.

(** The loop hands to [os.unlink] only paths that a name of the list is
    bound to and that exist. *)
Lemma cleanup_loop_only_bound names : forall st path,
  CallUnlink path ∈ log (snd (for_each names (cleanup_one w) st)) ->
  CallUnlink path ∈ log st \/
  exists path_var,
    path_var ∈ names /\ locals st !! path_var = Some path /\ path ∈ fs st.
Proof.
  induction names as [|n names IH]; intros st path H; [by left|].
  rewrite for_each_cleanup_cons in H. apply IH in H as [H|(pv & Hpv & Hl & Hin)].
  - rewrite cleanup_one_spec in H. cbn [snd] in H.
    destruct (locals st !! n) as [q|] eqn:Eq; [|by left].
    case_bool_decide as Hq; [|by left].
    assert (Hcase : CallUnlink path ∈ log st \/ path = q).
    { destruct (unlink w q) as [e|]; cbn [log] in H;
        apply elem_of_app in H as [H|H]; try (by left); right.
      - apply elem_of_cons in H as [[= ->]|H]; [done|].
        apply elem_of_cons in H as [[=]|H]. by apply elem_of_nil in H.
      - apply elem_of_cons in H as [[= ->]|H]; [done|]. by apply elem_of_nil in H. }
    destruct Hcase as [Hlog| ->]; [by left|].
    right. exists n. split; [apply list_elem_of_here|done].
  - right. exists pv. split; [by apply list_elem_of_further|].
    rewrite cleanup_one_locals in Hl. split; [done|].
    by apply (cleanup_one_fs_subset n st).
Qed.

(** The block is the loop, run after at most one warning. *)
Lemma cleanup_as_loop st :
  exists evs,
    (evs = [] \/ exists msg, evs = [UiWarning msg]) /\
    cleanup w st = for_each cleanup_names (cleanup_one w) (add_log st evs).
Proof.
  unfold cleanup, close_video_handles, bind, get_locals.
  destruct (bool_decide _).
  - exists [UiWarning "Warning during video cleanup: 'str' object has no attribute 'reader'"].
    split; [right; by eexists|]. reflexivity.
  - exists []. split; [by left|]. by rewrite add_log_nil.
Qed.

End Cleanup.

(** X6: the [finally] block is best effort: it never raises, rebinds no
    name, creates no file, and adds nothing to the log but unlink calls and
    warnings. *)
Theorem finally_block_is_best_effort (w : world) (st : state) :
  fst (cleanup w st) = Ok tt /\
  locals (snd (cleanup w st)) = locals st /\
  fs (snd (cleanup w st)) ⊆ fs st /\
  exists evs,
    log (snd (cleanup w st)) = log st ++ evs /\ forallb is_cleanup_event evs = true.
Proof.
  split; [apply cleanup_returns|].
  split; [|split; [|apply cleanup_emits]];
    destruct (cleanup_as_loop w st) as (evs0 & _ & ->).
  - by rewrite cleanup_loop_locals.
  - etrans; [apply cleanup_loop_fs_subset|done].
Qed.

(** X7: every existing file that one of the names [video_path],
    [audio_path], [final_audio_path], [final_output_path] is bound to is
    handed to [os.unlink] by the [finally] block, and is gone afterwards
    when that call succeeds. *)
Theorem finally_block_unlinks_bound_files (w : world) (st : state)
    (path_var path : string) :
  path_var ∈ cleanup_names ->
  locals st !! path_var = Some path ->
  path ∈ fs st ->
  CallUnlink path ∈ log (snd (cleanup w st)) /\
  (unlink w path = None -> path ∉ fs (snd (cleanup w st))).
Proof.
  intros Hn Hl Hin. destruct (cleanup_as_loop w st) as (evs0 & _ & ->). split.
  - apply (cleanup_loop_attempts w cleanup_names _ path_var path); [done|done|by left].
  - intros Hu. by apply (cleanup_loop_deletes w cleanup_names _ path_var path).
Qed.

Lemma finally_block_unlinks_bound_files_witness :
  "audio_path" ∈ cleanup_names /\
  locals state_before_cleanup !! "audio_path" = Some "/tmp/tmpaudio01.wav" /\
  "/tmp/tmpaudio01.wav" ∈ fs state_before_cleanup /\
  unlink world_ok "/tmp/tmpaudio01.wav" = None /\
  CallUnlink "/tmp/tmpaudio01.wav" ∈ log (snd (cleanup world_ok state_before_cleanup)) /\
  "/tmp/tmpaudio01.wav" ∉ fs (snd (cleanup world_ok state_before_cleanup)).
Proof.
  assert (Hn : "audio_path" ∈ cleanup_names).
  { apply list_elem_of_further, list_elem_of_here. }
  assert (Hl : locals state_before_cleanup !! "audio_path" = Some "/tmp/tmpaudio01.wav").
  { reflexivity. }
  assert (Hin : "/tmp/tmpaudio01.wav" ∈ fs state_before_cleanup).
  { unfold state_before_cleanup. cbn [fs]. set_solver. }
  destruct (finally_block_unlinks_bound_files world_ok state_before_cleanup
              "audio_path" "/tmp/tmpaudio01.wav" Hn Hl Hin) as [Hcall Hgone].
  split; [exact Hn|]. split; [exact Hl|]. split; [exact Hin|].
  split; [reflexivity|]. split; [exact Hcall|]. apply Hgone. reflexivity.
Defined.

(** X8: when [os.unlink] fails on a bound, existing file, the [finally]
    block leaves the file in place and shows the warning "Could not delete
    <name>: <error>" for the name it was looking up; it goes on without
    raising. *)
Theorem unlink_failure_only_warns (w : world) (st : state)
    (path_var path unlink_err : string) :
  path_var ∈ cleanup_names ->
  locals st !! path_var = Some path ->
  path ∈ fs st ->
  unlink w path = Some unlink_err ->
  fst (cleanup w st) = Ok tt /\
  path ∈ fs (snd (cleanup w st)) /\
  UiWarning ("Could not delete " +:+ path_var +:+ ": " +:+ unlink_err)
  ∈ log (snd (cleanup w st)).
Proof.
  intros Hn Hl Hin Hu. split; [apply cleanup_returns|].
  destruct (cleanup_as_loop w st) as (evs0 & _ & ->). split.
  - apply cleanup_loop_keeps; [done|]. intros ? _ _. by rewrite Hu.
  - by apply (cleanup_loop_warns w cleanup_names _ path_var path).
Qed.

Lemma unlink_failure_only_warns_witness :
  "video_path" ∈ cleanup_names /\
  locals state_before_cleanup !! "video_path" = Some "/tmp/tmpvideo01.mp4" /\
  "/tmp/tmpvideo01.mp4" ∈ fs state_before_cleanup /\
  unlink world_unlink_fails "/tmp/tmpvideo01.mp4" = Some "Permission denied" /\
  fst (cleanup world_unlink_fails state_before_cleanup) = Ok tt /\
  "/tmp/tmpvideo01.mp4" ∈ fs (snd (cleanup world_unlink_fails state_before_cleanup)) /\
  UiWarning ("Could not delete " +:+ "video_path" +:+ ": " +:+ "Permission denied")
  ∈ log (snd (cleanup world_unlink_fails state_before_cleanup)).
Proof.
  assert (Hn : "video_path" ∈ cleanup_names) by apply list_elem_of_here.
  assert (Hl : locals state_before_cleanup !! "video_path" = Some "/tmp/tmpvideo01.mp4").
  { reflexivity. }
  assert (Hin : "/tmp/tmpvideo01.mp4" ∈ fs state_before_cleanup).
  { unfold state_before_cleanup. cbn [fs]. set_solver. }
  split; [exact Hn|]. split; [exact Hl|]. split; [exact Hin|]. split; [reflexivity|].
  apply (unlink_failure_only_warns world_unlink_fails state_before_cleanup
           "video_path" "/tmp/tmpvideo01.mp4" "Permission denied" Hn Hl Hin).
  reflexivity.
Defined.

(** X9: the [finally] block finds its files by name: a path that none of
    the four names is bound to is never handed to [os.unlink], and a file
    at such a path is still there afterwards. *)
Theorem finally_block_spares_unbound_files (w : world) (st : state) (path : string) :
  (forall path_var, path_var ∈ cleanup_names -> locals st !! path_var <> Some path) ->
  (path ∈ fs st -> path ∈ fs (snd (cleanup w st))) /\
  (CallUnlink path ∉ log st -> CallUnlink path ∉ log (snd (cleanup w st))).
Proof.
  intros Hfree. destruct (cleanup_as_loop w st) as (evs0 & Hevs0 & ->). split.
  - intros Hin. apply cleanup_loop_keeps; [done|].
    intros path_var Hv Hl. by destruct (Hfree path_var Hv).
  - intros Hlog H. apply cleanup_loop_only_bound in H as [H|(pv & Hpv & Hl & _)].
    + apply Hlog. cbn [add_log log] in H. apply elem_of_app in H as [H|H]; [done|].
      destruct Hevs0 as [->|(msg & ->)]; [by apply elem_of_nil in H|].
      apply elem_of_cons in H as [[=]|H]. by apply elem_of_nil in H.
    + by destruct (Hfree pv Hpv).
Qed.

Lemma finally_block_spares_unbound_files_witness :
  (forall path_var, path_var ∈ cleanup_names ->
     locals state_before_cleanup !! path_var <> Some "/tmp/stray.tmp") /\
  "/tmp/stray.tmp" ∈ fs (snd (cleanup world_ok state_before_cleanup)) /\
  CallUnlink "/tmp/stray.tmp" ∉ log (snd (cleanup world_ok state_before_cleanup)).
Proof.
  assert (Hfree : forall path_var, path_var ∈ cleanup_names ->
            locals state_before_cleanup !! path_var <> Some "/tmp/stray.tmp").
  { intros path_var Hv. unfold cleanup_names in Hv.
    repeat (apply elem_of_cons in Hv as [->|Hv]; [by vm_compute|]).
    by apply elem_of_nil in Hv. }
  destruct (finally_block_spares_unbound_files world_ok state_before_cleanup
              "/tmp/stray.tmp" Hfree) as [Hkeep Hnot].
  split; [exact Hfree|]. split.
  - apply Hkeep. unfold state_before_cleanup. cbn [fs]. set_solver.
  - apply Hnot. unfold state_before_cleanup. cbn [log]. apply not_elem_of_nil.
Defined.

(** ** The run as a whole *)

Lemma forallb_existsb_false {A} (P Q : A -> bool) (l : list A) :
  (forall x, P x = true -> Q x = false) -> forallb P l = true -> existsb Q l = false.
Proof.
  intros HPQ. induction l as [|x l IH]; [done|]. cbn [forallb existsb].
  intros [Hx Hl]%andb_true_iff. by rewrite (HPQ x Hx), IH.
Qed.

Lemma forallb_weaken {A} (P Q : A -> bool) (l : list A) :
  (forall x, P x = true -> Q x = true) -> forallb P l = true -> forallb Q l = true.
Proof.
  intros HPQ. induction l as [|x l IH]; [done|]. cbn [forallb].
  intros [Hx Hl]%andb_true_iff. by rewrite (HPQ x Hx), IH.
Qed.

Lemma forallb_not_elem {A} (P : A -> bool) (l : list A) (x : A) :
  forallb P l = true -> P x = false -> x ∉ l.
Proof.
  intros Hl Hx Hin. rewrite forallb_forall in Hl.
  apply list_elem_of_In in Hin. rewrite (Hl x Hin) in Hx. done.
Qed.

Section Run.
Variable w : world.

Lemma cleanup_keeps st path :
  path ∈ fs st ->
  (forall path_var, path_var ∈ cleanup_names ->
     locals st !! path_var = Some path -> unlink w path <> None) ->
  path ∈ fs (snd (cleanup w st)).
Proof.
  intros Hin Hkeep. destruct (cleanup_as_loop w st) as (evs0 & _ & ->).
  by apply cleanup_loop_keeps.
Qed.

Lemma cleanup_deletes st path_var path :
  path_var ∈ cleanup_names ->
  locals st !! path_var = Some path ->
  unlink w path = None ->
  path ∉ fs (snd (cleanup w st)).
Proof.
  intros Hn Hl Hu. destruct (cleanup_as_loop w st) as (evs0 & _ & ->).
  by apply (cleanup_loop_deletes w cleanup_names _ path_var path).
Qed.

Lemma cleanup_only_bound st path :
  CallUnlink path ∈ log (snd (cleanup w st)) ->
  CallUnlink path ∈ log st \/
  exists path_var,
    path_var ∈ cleanup_names /\ locals st !! path_var = Some path /\ path ∈ fs st.
Proof.
  destruct (cleanup_as_loop w st) as (evs0 & Hevs0 & ->).
  intros [H|H]%cleanup_loop_only_bound; [|by right].
  left. cbn [add_log log] in H. apply elem_of_app in H as [H|H]; [done|].
  destruct Hevs0 as [->|(msg & ->)]; [by apply elem_of_nil in H|].
  apply elem_of_cons in H as [[=]|H]. by apply elem_of_nil in H.
Qed.

Lemma cleanup_log_grows st ev :
  ev ∈ log st -> ev ∈ log (snd (cleanup w st)).
Proof.
  intros Hin. destruct (cleanup_emits w st) as (evs & -> & _).
  apply elem_of_app. by left.
Qed.

Lemma get_audio_streams_probe_events video_path :
  emits is_probe_event (get_audio_streams w video_path).
Proof. unfold get_audio_streams. emits_auto. Qed.

(** A run with an upload is the probe followed by the rest of the script. *)
Lemma session_probe filename size :
  uploaded_file w = Some (filename, size) ->
  exists streams evs,
    probed w = Ok streams /\
    forallb is_probe_event evs = true /\
    session w initial_state
    = track_workflow w filename (tmp_video w) streams
        (add_log (uploaded_state w filename size) evs).
Proof.
  intros Hup. destruct (get_audio_streams_probed w) as (streams & evs & Hp & _ & Hrun).
  destruct (get_audio_streams_probe_events (tmp_video w) initial_state)
    as (evs' & Hl & Hevs).
  rewrite Hrun in Hl. cbn in Hl. subst evs'.
  exists streams, evs. split; [done|]. split; [done|].
  unfold session. rewrite Hup. unfold bind at 1 2 3 4 5 6.
  cbn [emit assign create_file initial_state fs log locals app].
  by rewrite Hrun.
Qed.

Lemma track_workflow_pressed_at filename video_path audio_streams st k :
  audio_streams <> [] ->
  selected_index w audio_streams = Ok k ->
  button_pressed w = true ->
  track_workflow w filename video_path audio_streams st
  = try_finally
      (try_except
         (extraction_body w filename video_path audio_streams k)
         (fun e => emit (UiError ("Error extracting audio: " +:+ e))))
      (cleanup w)
      (add_log st [UiSubheader "Available Audio Tracks"; UiSpinner "Extracting audio..."]).
Proof.
  intros Hne Hk Hb. unfold track_workflow.
  destruct audio_streams as [|s rest]; [done|].
  rewrite Hk, Hb.
  unfold bind at 1 2 3, lift, emit, add_log. cbn [fs log locals].
  by rewrite <- app_assoc.
Qed.

(** The guarded body followed by the [finally] block: the block runs on the
    state the body ended in, after the error banner if the body raised. *)
Lemma guarded_body_run (body : M unit) st :
  try_finally
    (try_except body (fun e => emit (UiError ("Error extracting audio: " +:+ e))))
    (cleanup w) st
  = cleanup w
      (match fst (body st) with
       | Ok _ => snd (body st)
       | Raised e => add_log (snd (body st)) [UiError ("Error extracting audio: " +:+ e)]
       end).
Proof.
  unfold try_finally, try_except, emit.
  destruct (body st) as [[[]|e] st1]; cbn [fst snd].
  - pose proof (cleanup_returns w st1) as Hret.
    destruct (cleanup w st1) as [[[]|e] st2]; cbn in Hret; done.
  - fold (add_log st1 [UiError ("Error extracting audio: " +:+ e)]).
    pose proof (cleanup_returns w (add_log st1 [UiError ("Error extracting audio: " +:+ e)]))
      as Hret.
    destruct (cleanup w _) as [[[]|e'] st2]; cbn in Hret; done.
Qed.


(** The body of the [try] up to the call of the extractor. *)
Lemma extraction_body_start filename video_path audio_streams k st :
  exists evs,
    forallb is_error_banner evs = true /\
    (ffmpeg_succeeded w (ffmpeg_cmd video_path k (tmp_audio w)) = false ->
     extraction_body w filename video_path audio_streams k st
     = (Ok tt,
        {| fs := {[tmp_audio w]} ∪ fs st;
           log := log st ++ CallFfmpeg (ffmpeg_cmd video_path k (tmp_audio w)) :: evs;
           locals := locals st |})) /\
    (ffmpeg_succeeded w (ffmpeg_cmd video_path k (tmp_audio w)) = true ->
     evs = [] /\
     extraction_body w filename video_path audio_streams k st
     = (let* final_audio_path :=
          if enhance_audio w then enhancement_block w (tmp_audio w)
          else (assign "final_audio_path" (tmp_audio w) ;; ret (tmp_audio w)) in
        let* final_output_path := conversion_block w final_audio_path in
        present_block w filename audio_streams k final_output_path)
         {| fs := {[tmp_audio w]} ∪ fs st;
            log := log st ++ [CallFfmpeg (ffmpeg_cmd video_path k (tmp_audio w))];
            locals := <["audio_path" := tmp_audio w]> (locals st) |}).
Proof.
  destruct (extract_audio_track_result w video_path k (tmp_audio w))
    as (evs & Hevs & Htrue & _ & Hrun).
  exists evs. split; [done|]. split.
  - intros Hok. unfold extraction_body. unfold bind at 1 2. cbn [create_file].
    rewrite Hrun, Hok. reflexivity.
  - intros Hok. split; [by apply Htrue|].
    unfold extraction_body. unfold bind at 1 2. cbn [create_file].
    rewrite Hrun, Hok, (Htrue Hok). unfold bind at 1. reflexivity.
Qed.

End Run.

(** ** No failure stays silent *)

Section Answered.
Variable w : world.



















End Answered.



Section TidyScript.
Variable w : world.










End TidyScript.


(** A failed call that nothing reports is not answered. *)
Example answered_rejects_silent_failure :
  answered world_load_fails [UiInfo "Applying ML audio enhancement..."; CallLoad "/tmp/tmpaudio01.wav"] = false /\
  answered world_load_fails (log (run world_load_fails)) = true.
Proof. split; vm_compute; reflexivity. Qed.

Section RunCases.
Variable w : world.

Lemma probe_event_not_offer ev : is_probe_event ev = true -> not_offer ev = true.
Proof. by destruct ev. Qed.

Lemma probe_event_not_unlink ev : is_probe_event ev = true -> not_unlink_call ev = true.
Proof. by destruct ev. Qed.

Lemma error_banner_not_offer ev : is_error_banner ev = true -> not_offer ev = true.
Proof. by destruct ev. Qed.

Lemma error_banner_not_unlink ev : is_error_banner ev = true -> not_unlink_call ev = true.
Proof. by destruct ev. Qed.

Lemma cleanup_event_not_offer ev : is_cleanup_event ev = true -> not_offer ev = true.
Proof. by destruct ev. Qed.

Lemma not_offer_existsb l : forallb not_offer l = true -> existsb is_offer l = false.
Proof.
  apply forallb_existsb_false. intros ev. unfold not_offer. by destruct (is_offer ev).
Qed.

(** The names bound when the probe starts. *)
Lemma uploaded_locals filename size path_var path :
  locals (uploaded_state w filename size) !! path_var = Some path ->
  path_var = "video_path" /\ path = tmp_video w.
Proof.
  cbn [uploaded_state locals]. intros H.
  apply lookup_insert_Some in H as [[<- <-]|[_ H]]; [done|].
  by rewrite lookup_empty in H.
Qed.

(** A run in which the button was pressed: the [finally] block runs on the
    state the guarded body ends in. *)
Lemma session_pressed filename size streams k :
  uploaded_file w = Some (filename, size) ->
  probed w = Ok streams ->
  streams <> [] ->
  selected_index w streams = Ok k ->
  button_pressed w = true ->
  exists evs,
    forallb is_probe_event evs = true /\
    forall st0 body,
      st0 = add_log (uploaded_state w filename size)
              (evs ++ [UiSubheader "Available Audio Tracks";
                       UiSpinner "Extracting audio..."]) ->
      body = extraction_body w filename (tmp_video w) streams k ->
      session w initial_state
      = cleanup w
          (match fst (body st0) with
           | Ok _ => snd (body st0)
           | Raised e =>
               add_log (snd (body st0)) [UiError ("Error extracting audio: " +:+ e)]
           end).
Proof.
  intros Hup Hp Hne Hk Hb.
  destruct (session_probe w filename size Hup) as (streams' & evs & Hp' & Hevs & Hs).
  rewrite Hp in Hp'. injection Hp' as <-.
  exists evs. split; [done|]. intros st0 body -> ->.
  rewrite Hs, (track_workflow_pressed_at w _ _ _ _ k) by done.
  by rewrite guarded_body_run, add_log_add_log.
Qed.

Lemma track_workflow_idle filename video_path audio_streams st :
  button_pressed w = false ->
  exists ev,
    not_unlink_call ev && not_ffmpeg_call ev && not_offer ev = true /\
    track_workflow w filename video_path audio_streams st = (Ok tt, add_log st [ev]).
Proof.
  intros Hb. destruct audio_streams as [|s rest].
  - by exists (UiError "No audio tracks found in the video file.").
  - destruct (selected_index_total w (s :: rest)) as (k & Hk & _); [done|].
    exists (UiSubheader "Available Audio Tracks"). split; [done|].
    unfold track_workflow. rewrite Hk, Hb. reflexivity.
Qed.

End RunCases.

(** X11: the success banner, the audio player and the download button are
    shown only in a run in which the button was pressed and ffmpeg, run on
    the selected track, exited with status 0. *)
Theorem offers_need_ffmpeg_success (w : world) :
  existsb is_offer (log (run w)) = true ->
  button_pressed w = true /\
  exists streams k,
    probed w = Ok streams /\
    selected_index w streams = Ok k /\
    ffmpeg_succeeded w (ffmpeg_cmd (tmp_video w) k (tmp_audio w)) = true.
Proof.
  unfold run. intros H.
  destruct (uploaded_file w) as [[filename size]|] eqn:Hup;
    [|unfold session in H; by rewrite Hup in H].
  destruct (session_probe w filename size Hup) as (streams & evs & Hp & Hevs & Hs).
  assert (Hst : forallb not_offer
                  (log (add_log (uploaded_state w filename size) evs)) = true).
  { cbn [add_log log uploaded_state]. rewrite forallb_app. apply andb_true_iff.
    split; [done|]. eapply forallb_weaken; [apply probe_event_not_offer|done]. }
  destruct (button_pressed w) eqn:Hb.
  - split; [done|].
    destruct (decide (streams = [])) as [->|Hne].
    { rewrite Hs in H. cbn [track_workflow emit snd log] in H.
      rewrite not_offer_existsb in H; [done|].
      rewrite forallb_app, Hst. done. }
    destruct (selected_index_total w streams Hne) as (k & Hk & _).
    exists streams, k. split; [done|]. split; [done|].
    destruct (ffmpeg_succeeded w _) eqn:Hok; [done|]. exfalso.
    rewrite Hs, (track_workflow_pressed_at w _ _ _ _ k), guarded_body_run in H by done.
    destruct (extraction_body_start w filename (tmp_video w) streams k
                (add_log (add_log (uploaded_state w filename size) evs)
                   [UiSubheader "Available Audio Tracks"; UiSpinner "Extracting audio..."]))
      as (evs' & Hevs' & Hfail & _).
    rewrite (Hfail Hok) in H. cbn [fst snd] in H.
    match type of H with
    | context [cleanup w ?s] => destruct (cleanup_emits w s) as (tail & Hlog & Htail)
    end.
    rewrite Hlog in H. rewrite not_offer_existsb in H; [done|].
    cbn [log add_log] in *. rewrite !forallb_app. cbn [forallb].
    rewrite forallb_app in Hst. rewrite Hst.
    rewrite (forallb_weaken _ _ _ error_banner_not_offer Hevs').
    rewrite (forallb_weaken _ _ _ cleanup_event_not_offer Htail). done.
  - destruct (track_workflow_idle w filename (tmp_video w) streams
                (add_log (uploaded_state w filename size) evs) Hb) as (ev & Hev & Hrun).
    rewrite Hs, Hrun in H. cbn [snd] in H.
    rewrite not_offer_existsb in H; [done|].
    cbn [add_log log] in *. rewrite forallb_app, Hst. cbn [forallb].
    apply andb_true_iff in Hev as [_ ->]. done.
Qed.

Lemma offers_need_ffmpeg_success_witness :
  existsb is_offer (log (run world_ok)) = true /\
  button_pressed world_ok = true /\
  exists streams k,
    probed world_ok = Ok streams /\
    selected_index world_ok streams = Ok k /\
    ffmpeg_succeeded world_ok (ffmpeg_cmd (tmp_video world_ok) k (tmp_audio world_ok)) = true.
Proof.
  assert (H : existsb is_offer (log (run world_ok)) = true) by (vm_compute; reflexivity).
  split; [exact H|]. apply (offers_need_ffmpeg_success world_ok H).
Defined.

(** X12: as long as the "Extract Audio" button has not been pressed, a run
    with an upload ends normally without calling ffmpeg and without
    unlinking anything: the temporary copy of the upload made by that run
    is left on disk. *)
Theorem idle_run_keeps_upload (w : world) (filename : string) (size : Z) :
  uploaded_file w = Some (filename, size) ->
  button_pressed w = false ->
  fst (session w initial_state) = Ok tt /\
  tmp_video w ∈ fs (run w) /\
  forallb (fun ev => not_unlink_call ev && not_ffmpeg_call ev) (log (run w)) = true.
Proof.
  intros Hup Hb. unfold run.
  destruct (session_after_probe w filename size Hup) as (streams & evs & _ & Hevs & ->).
  destruct (track_workflow_idle w filename (tmp_video w) streams
              (add_log (uploaded_state w filename size) evs) Hb) as (ev & Hev & ->).
  cbn [fst snd add_log fs log uploaded_state].
  split; [done|]. split; [set_solver|].
  rewrite !forallb_app, Hevs. cbn [forallb].
  apply andb_true_iff in Hev as [-> _]. done.
Qed.

Lemma idle_run_keeps_upload_witness :
  uploaded_file world_idle = Some ("clip.mp4", 1048576%Z) /\
  button_pressed world_idle = false /\
  fst (session world_idle initial_state) = Ok tt /\
  tmp_video world_idle ∈ fs (run world_idle) /\
  forallb (fun ev => not_unlink_call ev && not_ffmpeg_call ev) (log (run world_idle)) = true.
Proof.
  split; [reflexivity|]. split; [reflexivity|].
  apply (idle_run_keeps_upload world_idle "clip.mp4" 1048576%Z); reflexivity.
Defined.

(** X13: when ffmpeg fails on the selected track, the WAV temporary file
    created for its output is never handed to [os.unlink] and is still on
    disk when the run ends ([audio_path] is bound only after a successful
    extraction); the copy of the upload is handed to [os.unlink]. *)
Theorem failed_extraction_leaks_raw_wav (w : world) (filename : string) (size : Z)
    (streams : list info) :
  uploaded_file w = Some (filename, size) ->
  probed w = Ok streams ->
  default 0 (selection w) < length streams ->
  button_pressed w = true ->
  ffmpeg_succeeded w
    (ffmpeg_cmd (tmp_video w) (default 0 (selection w)) (tmp_audio w)) = false ->
  tmp_audio w <> tmp_video w ->
  tmp_audio w ∈ fs (run w) /\
  (CallUnlink (tmp_audio w) ∉ log (run w)) /\
  CallUnlink (tmp_video w) ∈ log (run w).
Proof.
  intros Hup Hp Hk Hb Hok Hdiff. unfold run.
  assert (Hne : streams <> []) by (intros ->; cbn in Hk; lia).
  destruct (session_pressed w filename size streams (default 0 (selection w)))
    as (evs & Hevs & Hs); [done|done|done|by apply selected_index_position|done|].
  rewrite (Hs _ _ eq_refl eq_refl). clear Hs.
  match goal with
  | |- context [extraction_body w ?f ?v ?s ?k ?st] =>
      destruct (extraction_body_start w f v s k st) as (evs' & Hevs' & Hfail & _)
  end.
  rewrite (Hfail Hok). cbn [fst snd]. clear Hfail.
  assert (Hfree : forall path_var path,
            locals (add_log (uploaded_state w filename size)
                      (evs ++ [UiSubheader "Available Audio Tracks";
                               UiSpinner "Extracting audio..."])) !! path_var = Some path ->
            path_var = "video_path" /\ path = tmp_video w).
  { intros path_var path. apply uploaded_locals. }
  split; [|split].
  - apply cleanup_keeps; [cbn [fs]; apply elem_of_union_l; by apply elem_of_singleton|].
    intros path_var _ Hl. cbn [locals] in Hl. by destruct (Hfree _ _ Hl) as [_ ?].
  - intros [H|(pv & _ & Hl & _)]%cleanup_only_bound.
    + revert H. apply (forallb_not_elem not_unlink_call); [|done].
      cbn [log add_log uploaded_state]. rewrite !forallb_app. cbn [forallb].
      rewrite (forallb_weaken _ _ _ probe_event_not_unlink Hevs).
      rewrite (forallb_weaken _ _ _ error_banner_not_unlink Hevs'). done.
    + cbn [locals] in Hl. by destruct (Hfree _ _ Hl) as [_ ?].
  - apply (cleanup_attempts_bound_paths w _ "video_path").
    + apply list_elem_of_here.
    + cbn [locals add_log uploaded_state]. apply lookup_insert_eq.
    + cbn [fs add_log uploaded_state].
      apply elem_of_union_r, elem_of_union_l. by apply elem_of_singleton.
Qed.

Lemma failed_extraction_leaks_raw_wav_witness :
  uploaded_file world_ffmpeg_fails = Some ("clip.mp4", 1048576%Z) /\
  probed world_ffmpeg_fails = Ok [describe_default] /\
  button_pressed world_ffmpeg_fails = true /\
  tmp_audio world_ffmpeg_fails ∈ fs (run world_ffmpeg_fails) /\
  (CallUnlink (tmp_audio world_ffmpeg_fails) ∉ log (run world_ffmpeg_fails)) /\
  CallUnlink (tmp_video world_ffmpeg_fails) ∈ log (run world_ffmpeg_fails).
Proof.
  split; [reflexivity|]. split; [reflexivity|]. split; [reflexivity|].
  apply (failed_extraction_leaks_raw_wav world_ffmpeg_fails "clip.mp4" 1048576%Z
           [describe_default]); try reflexivity.
  - cbn. lia.
  - by vm_compute.
Defined.

Section KeepsFiles.
Context {A : Type}.

Lemma keeps_files_ret (a : A) : keeps_files (ret a).
Proof. by intros st. Qed.

Lemma keeps_files_raise e : keeps_files (raise (A := A) e).
Proof. by intros st. Qed.

Lemma keeps_files_lift (r : outcome A) : keeps_files (lift r).
Proof. by intros st. Qed.

Lemma keeps_files_bind {B} (c : M B) (k : B -> M A) :
  keeps_files c -> (forall b, keeps_files (k b)) -> keeps_files (bind c k).
Proof.
  intros Hc Hk st. unfold bind. specialize (Hc st).
  destruct (c st) as [[b|e] st1]; cbn [snd] in *; [|done].
  etrans; [exact Hc|apply Hk].
Qed.

Lemma keeps_files_try_except (body : M A) (handler : string -> M A) :
  keeps_files body -> (forall e, keeps_files (handler e)) ->
  keeps_files (try_except body handler).
Proof.
  intros Hc Hk st. unfold try_except. specialize (Hc st).
  destruct (body st) as [[b|e] st1]; cbn [snd] in *; [done|].
  etrans; [exact Hc|apply Hk].
Qed.
End KeepsFiles.

Lemma keeps_files_emit ev : keeps_files (emit ev).
Proof. by intros st. Qed.

Lemma keeps_files_assign name path : keeps_files (assign name path).
Proof. by intros st. Qed.

Lemma keeps_files_create_file path : keeps_files (create_file path).
Proof. intros st. cbn. apply union_subseteq_r. Qed.

Lemma keeps_files_attempt r : keeps_files (attempt r).
Proof. destruct r; by intros st. Qed.

Ltac keeps_files_step :=
  first
    [ apply keeps_files_ret | apply keeps_files_raise | apply keeps_files_lift
    | apply keeps_files_emit | apply keeps_files_assign
    | apply keeps_files_create_file | apply keeps_files_attempt
    | apply keeps_files_bind; [|intros ?]
    | apply keeps_files_try_except; [|intros ?]
    | match goal with
      | |- keeps_files (match ?x with _ => _ end) => destruct x
      end ].

Section Chain.
Variable w : world.

Lemma cleanup_fs_subset st : fs (snd (cleanup w st)) ⊆ fs st.
Proof.
  destruct (cleanup_as_loop w st) as (evs0 & _ & ->).
  etrans; [apply cleanup_loop_fs_subset|done].
Qed.

Lemma enhancement_block_load_fails audio_path e st :
  librosa_load w audio_path = Raised e ->
  enhancement_block w audio_path st
  = (Raised e,
     add_log st [UiInfo "Applying ML audio enhancement..."; CallLoad audio_path]).
Proof.
  intros H. unfold enhancement_block, bind, lift, emit, add_log. rewrite H.
  cbn [fs log locals]. by rewrite <- app_assoc.
Qed.

Lemma conversion_block_export_fails final_audio_path e st :
  is_wav (output_format w) = false ->
  from_file w final_audio_path = None ->
  export w (tmp_output w) (output_format w) = Some e ->
  conversion_block w final_audio_path st
  = (Raised e,
     {| fs := {[tmp_output w]} ∪ fs st;
        log := log st ++ [CallFromFile final_audio_path;
                          CallExport (tmp_output w) (format_str (output_format w))];
        locals := locals st |}).
Proof.
  intros Hfmt Hfrom Hexp.
  unfold conversion_block, bind, emit, attempt, create_file, raise, ret.
  rewrite Hfmt, Hfrom. cbn [negb fs log locals]. rewrite Hexp.
  cbn [fs log locals]. by rewrite <- app_assoc.
Qed.

Lemma present_block_open_fails filename audio_streams k final_output_path s e st :
  audio_streams !! k = Some s ->
  open_rb w final_output_path = Some e ->
  present_block w filename audio_streams k final_output_path st
  = (Raised e,
     add_log st
       [UiSuccess "Audio extracted successfully!";
        UiInfo ("Extracted audio: " +:+ py_format w (language s)
                +:+ " (" +:+ py_format w (codec s)
                +:+ ", " +:+ py_format w (channels s) +:+ " channels)");
        UiAudio final_output_path ("audio/" +:+ format_str (output_format w));
        CallOpen final_output_path]).
Proof.
  intros Hs Hopen.
  unfold present_block, bind, emit, attempt, raise, ret, add_log.
  rewrite Hs. cbn [fs log locals]. rewrite Hopen. cbn [fs log locals].
  by rewrite <- !app_assoc.
Qed.

Lemma extraction_body_keeps_files filename video_path audio_streams k :
  keeps_files (extraction_body w filename video_path audio_streams k).
Proof.
  unfold extraction_body, extract_audio_track, enhancement_block, conversion_block,
    present_block.
  repeat keeps_files_step.
Qed.

Lemma extraction_body_no_unlink filename video_path audio_streams k :
  emits not_unlink_call (extraction_body w filename video_path audio_streams k).
Proof.
  unfold extraction_body, extract_audio_track, enhancement_block, conversion_block,
    present_block.
  emits_auto.
Qed.

End Chain.

(** X14: nothing inside the [try] removes a file: whatever the tools do,
    the body only adds files (the WAV temporary file first of all) and
    never calls [os.unlink]; deleting is left to the [finally] block. *)
Theorem extraction_body_never_deletes (w : world) (filename video_path : string)
    (audio_streams : list info) (k : nat) (st : state) :
  fs st ⊆ fs (snd (extraction_body w filename video_path audio_streams k st)) /\
  tmp_audio w ∈ fs (snd (extraction_body w filename video_path audio_streams k st)) /\
  exists evs,
    log (snd (extraction_body w filename video_path audio_streams k st)) = log st ++ evs /\
    forallb not_unlink_call evs = true.
Proof.
  split; [apply extraction_body_keeps_files|].
  split; [|apply extraction_body_no_unlink].
  unfold extraction_body. unfold bind at 1. cbn [create_file].
  match goal with
  | |- _ ∈ fs (snd (?c ?s)) =>
      assert (Hk : keeps_files c); [|apply (Hk s)]
  end.
  - unfold extract_audio_track, enhancement_block, conversion_block, present_block.
    repeat keeps_files_step.
  - cbn [fs]. apply elem_of_union_l. by apply elem_of_singleton.
Qed.

(** X15: when librosa cannot load the extracted WAV, the run shows
    "Error extracting audio: <error>" and neither success banner, player
    nor download button; the [finally] block hands both the extracted WAV
    and the copy of the upload to [os.unlink], and when both calls succeed
    no temporary file is left. *)
Theorem load_failure_is_reported_and_cleaned (w : world) (filename : string) (size : Z)
    (streams : list info) (e : string) :
  uploaded_file w = Some (filename, size) ->
  probed w = Ok streams ->
  default 0 (selection w) < length streams ->
  button_pressed w = true ->
  ffmpeg_succeeded w
    (ffmpeg_cmd (tmp_video w) (default 0 (selection w)) (tmp_audio w)) = true ->
  enhance_audio w = true ->
  librosa_load w (tmp_audio w) = Raised e ->
  UiError ("Error extracting audio: " +:+ e) ∈ log (run w) /\
  existsb is_offer (log (run w)) = false /\
  CallUnlink (tmp_audio w) ∈ log (run w) /\
  CallUnlink (tmp_video w) ∈ log (run w) /\
  (unlink w (tmp_audio w) = None -> unlink w (tmp_video w) = None -> fs (run w) = ∅).
Proof.
  intros Hup Hp Hk Hb Hok Henh Hload. unfold run.
  assert (Hne : streams <> []) by (intros ->; cbn in Hk; lia).
  destruct (session_pressed w filename size streams (default 0 (selection w)))
    as (evs & Hevs & Hs); [done|done|done|by apply selected_index_position|done|].
  rewrite (Hs _ _ eq_refl eq_refl). clear Hs.
  match goal with
  | |- context [extraction_body w ?f ?v ?s ?k ?st] =>
      destruct (extraction_body_start w f v s k st) as (evs' & _ & _ & Hrun)
  end.
  destruct (Hrun Hok) as [_ Hbody]. clear Hrun.
  rewrite Henh in Hbody. unfold bind at 1 in Hbody.
  rewrite (enhancement_block_load_fails w _ e) in Hbody by done.
  rewrite Hbody. clear Hbody. cbn [fst snd].
  match goal with |- context [cleanup w ?s] => set (st1 := s) end.
  assert (Haudio : locals st1 !! "audio_path" = Some (tmp_audio w)).
  { cbn [st1 add_log locals]. apply lookup_insert_eq. }
  assert (Hvideo : locals st1 !! "video_path" = Some (tmp_video w)).
  { cbn [st1 add_log locals uploaded_state].
    rewrite lookup_insert_ne by done. apply lookup_insert_eq. }
  assert (Hfs : fs st1 = {[tmp_audio w]} ∪ ({[tmp_video w]} ∪ ∅)) by reflexivity.
  split; [|split; [|split; [|split]]].
  - apply cleanup_log_grows. cbn [st1 add_log log].
    apply elem_of_app. right. apply list_elem_of_here.
  - destruct (cleanup_emits w st1) as (tail & -> & Htail).
    apply not_offer_existsb. cbn [st1 add_log log uploaded_state].
    rewrite !forallb_app. cbn [forallb].
    rewrite (forallb_weaken _ _ _ probe_event_not_offer Hevs).
    rewrite (forallb_weaken _ _ _ cleanup_event_not_offer Htail). done.
  - apply (cleanup_attempts_bound_paths w _ "audio_path"); [|done|].
    + apply list_elem_of_further, list_elem_of_here.
    + rewrite Hfs. apply elem_of_union_l. by apply elem_of_singleton.
  - apply (cleanup_attempts_bound_paths w _ "video_path"); [|done|].
    + apply list_elem_of_here.
    + rewrite Hfs. apply elem_of_union_r, elem_of_union_l. by apply elem_of_singleton.
  - intros Hua Huv. apply leibniz_equiv, elem_of_equiv_empty. intros p Hin.
    pose proof (cleanup_fs_subset w st1 p Hin) as Hp0. rewrite Hfs in Hp0.
    apply elem_of_union in Hp0 as [->%elem_of_singleton|Hp0].
    { revert Hin. apply (cleanup_deletes w st1 "audio_path"); [|done|done].
      apply list_elem_of_further, list_elem_of_here. }
    apply elem_of_union in Hp0 as [->%elem_of_singleton|Hp0].
    { revert Hin. apply (cleanup_deletes w st1 "video_path"); [|done|done].
      apply list_elem_of_here. }
    by apply elem_of_empty in Hp0.
Qed.

Lemma load_failure_is_reported_and_cleaned_witness :
  uploaded_file world_load_fails = Some ("clip.mp4", 1048576%Z) /\
  probed world_load_fails = Ok [describe_default] /\
  librosa_load world_load_fails (tmp_audio world_load_fails)
  = Raised "Error opening file: Format not recognised." /\
  UiError ("Error extracting audio: " +:+ "Error opening file: Format not recognised.")
  ∈ log (run world_load_fails) /\
  existsb is_offer (log (run world_load_fails)) = false /\
  CallUnlink (tmp_audio world_load_fails) ∈ log (run world_load_fails) /\
  CallUnlink (tmp_video world_load_fails) ∈ log (run world_load_fails) /\
  fs (run world_load_fails) = ∅.
Proof.
  split; [reflexivity|]. split; [reflexivity|]. split; [reflexivity|].
  destruct (load_failure_is_reported_and_cleaned world_load_fails "clip.mp4" 1048576%Z
              [describe_default] "Error opening file: Format not recognised.")
    as (Herr & Hoff & Ha & Hv & Hfs); try reflexivity; [cbn; lia|].
  split; [exact Herr|]. split; [exact Hoff|]. split; [exact Ha|]. split; [exact Hv|].
  apply Hfs; reflexivity.
Defined.

(** X16: when pydub's export fails (enhancement off, output format other
    than "wav"), the run shows "Error extracting audio: <error>" and
    offers nothing; the temporary file created for the converted audio is
    bound to no name yet, so it is never handed to [os.unlink] and stays on
    disk. *)
Theorem failed_export_leaks_converted_file (w : world) (filename : string) (size : Z)
    (streams : list info) (e : string) :
  uploaded_file w = Some (filename, size) ->
  probed w = Ok streams ->
  default 0 (selection w) < length streams ->
  button_pressed w = true ->
  ffmpeg_succeeded w
    (ffmpeg_cmd (tmp_video w) (default 0 (selection w)) (tmp_audio w)) = true ->
  enhance_audio w = false ->
  is_wav (output_format w) = false ->
  from_file w (tmp_audio w) = None ->
  export w (tmp_output w) (output_format w) = Some e ->
  tmp_output w <> tmp_video w ->
  tmp_output w <> tmp_audio w ->
  UiError ("Error extracting audio: " +:+ e) ∈ log (run w) /\
  existsb is_offer (log (run w)) = false /\
  tmp_output w ∈ fs (run w) /\
  CallUnlink (tmp_output w) ∉ log (run w).
Proof.
  intros Hup Hp Hk Hb Hok Henh Hfmt Hfrom Hexp Hdv Hda. unfold run.
  assert (Hne : streams <> []) by (intros ->; cbn in Hk; lia).
  destruct (session_pressed w filename size streams (default 0 (selection w)))
    as (evs & Hevs & Hs); [done|done|done|by apply selected_index_position|done|].
  rewrite (Hs _ _ eq_refl eq_refl). clear Hs.
  match goal with
  | |- context [extraction_body w ?f ?v ?s ?k ?st] =>
      destruct (extraction_body_start w f v s k st) as (evs' & _ & _ & Hrun)
  end.
  destruct (Hrun Hok) as [_ Hbody]. clear Hrun.
  rewrite Henh in Hbody. cbv [bind assign ret] in Hbody. cbn [fs log locals] in Hbody.
  rewrite (conversion_block_export_fails w _ e) in Hbody by done.
  rewrite Hbody. clear Hbody. cbn [fst snd].
  match goal with |- context [cleanup w ?s] => set (st1 := s) end.
  assert (Hfree : forall path_var, locals st1 !! path_var <> Some (tmp_output w)).
  { intros path_var. cbn [st1 add_log locals uploaded_state]. intros Hl.
    apply lookup_insert_Some in Hl as [[_ Hl]|[_ Hl]]; [congruence|].
    apply lookup_insert_Some in Hl as [[_ Hl]|[_ Hl]]; [congruence|].
    apply lookup_insert_Some in Hl as [[_ Hl]|[_ Hl]]; [congruence|].
    by rewrite lookup_empty in Hl. }
  split; [|split; [|split]].
  - apply cleanup_log_grows. cbn [st1 add_log log].
    apply elem_of_app. right. apply list_elem_of_here.
  - destruct (cleanup_emits w st1) as (tail & -> & Htail).
    apply not_offer_existsb. cbn [st1 add_log log uploaded_state].
    rewrite !forallb_app. cbn [forallb].
    rewrite (forallb_weaken _ _ _ probe_event_not_offer Hevs).
    rewrite (forallb_weaken _ _ _ cleanup_event_not_offer Htail). done.
  - apply cleanup_keeps.
    + cbn [st1 add_log fs]. apply elem_of_union_l. by apply elem_of_singleton.
    + intros path_var _ Hl. by destruct (Hfree path_var).
  - intros [H|(pv & _ & Hl & _)]%cleanup_only_bound; [|by destruct (Hfree pv)].
    revert H. apply (forallb_not_elem not_unlink_call); [|done].
    cbn [st1 log add_log uploaded_state]. rewrite !forallb_app. cbn [forallb].
    rewrite (forallb_weaken _ _ _ probe_event_not_unlink Hevs). done.
Qed.

Lemma failed_export_leaks_converted_file_witness :
  uploaded_file world_export_fails = Some ("clip.mp4", 1048576%Z) /\
  probed world_export_fails = Ok [describe_default] /\
  export world_export_fails (tmp_output world_export_fails)
    (output_format world_export_fails) = Some "Encoding failed" /\
  UiError ("Error extracting audio: " +:+ "Encoding failed")
  ∈ log (run world_export_fails) /\
  existsb is_offer (log (run world_export_fails)) = false /\
  tmp_output world_export_fails ∈ fs (run world_export_fails) /\
  CallUnlink (tmp_output world_export_fails) ∉ log (run world_export_fails).
Proof.
  split; [reflexivity|]. split; [reflexivity|]. split; [reflexivity|].
  apply (failed_export_leaks_converted_file world_export_fails "clip.mp4" 1048576%Z
           [describe_default] "Encoding failed"); try reflexivity.
  - cbn. lia.
  - by vm_compute.
  - by vm_compute.
Defined.

(** X17: the success banner is shown before the result is opened for the
    download button: when that [open] fails (enhancement off, output
    format "wav"), the run shows both "Audio extracted successfully!" and
    "Error extracting audio: <error>", no download button, and the
    extracted WAV is handed to [os.unlink]. *)
Theorem open_failure_follows_success_banner (w : world) (filename : string) (size : Z)
    (streams : list info) (e : string) :
  uploaded_file w = Some (filename, size) ->
  probed w = Ok streams ->
  default 0 (selection w) < length streams ->
  button_pressed w = true ->
  ffmpeg_succeeded w
    (ffmpeg_cmd (tmp_video w) (default 0 (selection w)) (tmp_audio w)) = true ->
  enhance_audio w = false ->
  output_format w = wav ->
  open_rb w (tmp_audio w) = Some e ->
  exists before after,
    log (run w)
    = before ++ [UiSuccess "Audio extracted successfully!"] ++ after /\
    UiError ("Error extracting audio: " +:+ e) ∈ after /\
    CallUnlink (tmp_audio w) ∈ after /\
    existsb is_download_button (log (run w)) = false.
Proof.
  intros Hup Hp Hk Hb Hok Henh Hfmt Hopen. unfold run.
  assert (Hne : streams <> []) by (intros ->; cbn in Hk; lia).
  destruct (lookup_lt_is_Some_2 streams (default 0 (selection w)) Hk) as [s Hs0].
  destruct (session_pressed w filename size streams (default 0 (selection w)))
    as (evs & Hevs & Hs); [done|done|done|by apply selected_index_position|done|].
  rewrite (Hs _ _ eq_refl eq_refl). clear Hs.
  match goal with
  | |- context [extraction_body w ?f ?v ?s ?k ?st] =>
      destruct (extraction_body_start w f v s k st) as (evs' & _ & _ & Hrun)
  end.
  destruct (Hrun Hok) as [_ Hbody]. clear Hrun.
  rewrite Henh in Hbody. unfold conversion_block in Hbody. rewrite Hfmt in Hbody.
  cbv [bind assign ret is_wav negb] in Hbody. cbn [fs log locals] in Hbody.
  rewrite (present_block_open_fails w _ _ _ _ s e) in Hbody by done.
  rewrite Hbody. clear Hbody. cbn [fst snd].
  match goal with |- context [cleanup w ?s] => set (st1 := s) end.
  assert (Hattempt : CallUnlink (tmp_audio w) ∈ log (snd (cleanup w st1))).
  { apply (cleanup_attempts_bound_paths w _ "audio_path").
    - apply list_elem_of_further, list_elem_of_here.
    - cbn [st1 add_log locals]. rewrite !lookup_insert_ne by done. apply lookup_insert_eq.
    - cbn [st1 add_log fs]. apply elem_of_union_l. by apply elem_of_singleton. }
  destruct (cleanup_emits w st1) as (tail & Hlog & Htail).
  rewrite Hlog in Hattempt |- *. cbn [st1 add_log log uploaded_state] in Hattempt |- *.
  eexists ([UiWrite filename size; UiVideo; UiSpinner "Analyzing video audio tracks..."]
           ++ evs
           ++ [UiSubheader "Available Audio Tracks"; UiSpinner "Extracting audio...";
               CallFfmpeg (ffmpeg_cmd (tmp_video w) (default 0 (selection w))
                             (tmp_audio w))]),
          (_ :: _ :: _ :: UiError ("Error extracting audio: " +:+ e) :: tail).
  split; [|split; [|split]].
  - rewrite <- !app_assoc. reflexivity.
  - do 3 apply list_elem_of_further. apply list_elem_of_here.
  - do 4 apply list_elem_of_further.
    repeat (apply elem_of_app in Hattempt as [Hattempt|Hattempt]);
      try (exfalso; revert Hattempt;
           apply (forallb_not_elem not_unlink_call); [|done];
           first [ by apply (forallb_weaken _ _ _ probe_event_not_unlink Hevs) | done ]).
    exact Hattempt.
  - apply (forallb_existsb_false (fun ev => negb (is_download_button ev))).
    { intros ev. by destruct (is_download_button ev). }
    rewrite !forallb_app. cbn [forallb].
    rewrite (forallb_weaken is_probe_event (fun ev => negb (is_download_button ev)) evs);
      [|intros ev; by destruct ev|done].
    rewrite (forallb_weaken is_cleanup_event (fun ev => negb (is_download_button ev)) tail);
      [|intros ev; by destruct ev|done].
    done.
Qed.

Lemma open_failure_follows_success_banner_witness :
  uploaded_file world_open_fails = Some ("clip.mp4", 1048576%Z) /\
  probed world_open_fails = Ok [describe_default] /\
  open_rb world_open_fails (tmp_audio world_open_fails)
  = Some "[Errno 24] Too many open files" /\
  exists before after,
    log (run world_open_fails)
    = before ++ [UiSuccess "Audio extracted successfully!"] ++ after /\
    UiError ("Error extracting audio: " +:+ "[Errno 24] Too many open files") ∈ after /\
    CallUnlink (tmp_audio world_open_fails) ∈ after /\
    existsb is_download_button (log (run world_open_fails)) = false.
Proof.
  split; [reflexivity|]. split; [reflexivity|]. split; [reflexivity|].
  apply (open_failure_follows_success_banner world_open_fails "clip.mp4" 1048576%Z
           [describe_default] "[Errno 24] Too many open files"); try reflexivity.
  cbn. lia.
Defined.

(** ** Enhancer *)

Section EnhancedPath.

Lemma length_append s : forall t,
  String.length (s +:+ t) = String.length s + String.length t.
Proof.
  induction s as [|c s IH]; intros t; [reflexivity|].
  rewrite append_cons. cbn [String.length]. by rewrite IH.
Qed.

(** Replacing ".wav" by the longer "_enhanced.wav" never shortens the part
    of the string that is still to be scanned. *)
Lemma replace_from_wav_length s : forall skip,
  String.length s <= String.length (replace_from ".wav" "_enhanced.wav" skip s) + skip.
Proof.
  induction s as [|c s IH]; intros skip; [cbn; lia|].
  cbn [replace_from]. destruct skip as [|k].
  - destruct (String.prefix ".wav" (String c s)).
    + rewrite length_append. specialize (IH (String.length ".wav" - 1)).
      cbn [String.length] in *. lia.
    + specialize (IH 0). cbn [String.length]. lia.
  - specialize (IH k). cbn [String.length]. lia.
Qed.

Lemma replace_wav_longer s :
  occurs ".wav" s = true ->
  String.length s < String.length (replace_from ".wav" "_enhanced.wav" 0 s).
Proof.
  induction s as [|c s IH]; [done|].
  cbn [occurs replace_from]. destruct (String.prefix ".wav" (String c s)).
  - intros _. rewrite length_append.
    pose proof (replace_from_wav_length s (String.length ".wav" - 1)) as H.
    cbn [String.length] in *. lia.
  - cbn [orb]. intros H. specialize (IH H). cbn [String.length]. lia.
Qed.

Lemma occurs_wav_suffix stem : occurs ".wav" (stem +:+ ".wav") = true.
Proof.
  induction stem as [|c stem IH]; [reflexivity|].
  rewrite append_cons. cbn [occurs]. rewrite IH. apply orb_true_r.
Qed.

End EnhancedPath.

(** X18: the path the enhancer writes to differs from the path it read
    exactly when the input path contains ".wav"; in particular it differs
    for every path that ends in ".wav", so the extracted file is not
    overwritten, while a path without ".wav" would be written in place. *)
Theorem enhanced_path_differs_iff_wav_occurs (audio_path : string) :
  (str_replace audio_path ".wav" "_enhanced.wav" = audio_path
   <-> occurs ".wav" audio_path = false) /\
  (forall stem,
     str_replace (stem +:+ ".wav") ".wav" "_enhanced.wav" <> stem +:+ ".wav").
Proof.
  assert (Hgrow : forall s, occurs ".wav" s = true ->
            str_replace s ".wav" "_enhanced.wav" <> s).
  { intros s Hs Heq. pose proof (replace_wav_longer s Hs) as Hlen.
    unfold str_replace in Heq. rewrite Heq in Hlen. lia. }
  split.
  - split.
    + intros Heq. destruct (occurs ".wav" audio_path) eqn:Hocc; [|done].
      by destruct (Hgrow audio_path Hocc).
    + apply replace_from_absent.
  - intros stem. apply Hgrow, occurs_wav_suffix.
Qed.

Lemma preemphasis_length y ye : preemphasis y = Ok ye -> length ye = length y.
Proof.
  unfold preemphasis. destruct y as [|y0 [|y1 y']]; intros H; try discriminate H.
  apply (f_equal (fun r => match r with Ok l => length l | Raised _ => 0 end)) in H.
  cbv beta iota in H. rewrite <- H. apply lfilter1_length.
Qed.

Lemma peak_normalize_length y yn : peak_normalize y = Ok yn -> length yn = length y.
Proof.
  unfold peak_normalize. destruct (np_max (np_abs y)); intros H; try discriminate H.
  apply (f_equal (fun r => match r with Ok l => length l | Raised _ => 0 end)) in H.
  cbv beta iota in H. rewrite <- H. unfold np_divide. apply length_fmap.
Qed.

(** X19: whenever the enhancer finishes, the signal it has written has as
    many samples as the signal it loaded and carries the sample rate
    librosa reported; the file it wrote is the last thing in the log. *)
Theorem enhancer_keeps_length_and_rate (w : world) (audio_path : string) (st : state)
    (y : list spec_float) (sr : Z) (enhanced_path : string) :
  librosa_load w audio_path = Ok (y, sr) ->
  fst (enhancement_block w audio_path st) = Ok enhanced_path ->
  exists y_enhanced,
    length y_enhanced = length y /\
    enhanced_path = str_replace audio_path ".wav" "_enhanced.wav" /\
    enhanced_path ∈ fs (snd (enhancement_block w audio_path st)) /\
    log (snd (enhancement_block w audio_path st))
    = log st ++ [UiInfo "Applying ML audio enhancement...";
                 CallLoad audio_path;
                 CallSfWrite enhanced_path y_enhanced sr].
Proof.
  intros Hload.
  destruct (preemphasis y) as [ye|e] eqn:Hpre; cycle 1.
  { unfold enhancement_block, bind, lift, emit. rewrite Hload, Hpre. done. }
  destruct (peak_normalize ye) as [yn|e] eqn:Hnorm; cycle 1.
  { unfold enhancement_block, bind, lift, emit. rewrite Hload, Hpre, Hnorm. done. }
  destruct (sf_write w (str_replace audio_path ".wav" "_enhanced.wav") yn sr)
    as [e|] eqn:Hwrite.
  { unfold enhancement_block, bind, lift, emit, assign, attempt, raise.
    rewrite Hload, Hpre, Hnorm. cbn [fs log locals]. rewrite Hwrite. done. }
  rewrite (enhancement_block_run w audio_path st y sr ye yn) by done.
  cbn [fst snd fs log]. intros [= <-]. exists yn.
  split; [|split; [done|split; [|done]]].
  - by rewrite (peak_normalize_length ye yn), (preemphasis_length y ye).
  - apply elem_of_union_l. by apply elem_of_singleton.
Qed.

Lemma enhancer_keeps_length_and_rate_witness :
  librosa_load world_ok "/tmp/tmpaudio01.wav" = Ok (tone, 44100%Z) /\
  fst (enhancement_block world_ok "/tmp/tmpaudio01.wav" initial_state)
  = Ok "/tmp/tmpaudio01_enhanced.wav" /\
  exists y_enhanced,
    length y_enhanced = length tone /\
    "/tmp/tmpaudio01_enhanced.wav"
    = str_replace "/tmp/tmpaudio01.wav" ".wav" "_enhanced.wav" /\
    "/tmp/tmpaudio01_enhanced.wav"
    ∈ fs (snd (enhancement_block world_ok "/tmp/tmpaudio01.wav" initial_state)) /\
    log (snd (enhancement_block world_ok "/tmp/tmpaudio01.wav" initial_state))
    = log initial_state
      ++ [UiInfo "Applying ML audio enhancement...";
          CallLoad "/tmp/tmpaudio01.wav";
          CallSfWrite "/tmp/tmpaudio01_enhanced.wav" y_enhanced 44100%Z].
Proof.
  split; [reflexivity|]. split; [by vm_compute|].
  apply (enhancer_keeps_length_and_rate world_ok "/tmp/tmpaudio01.wav" initial_state
           tone 44100%Z "/tmp/tmpaudio01_enhanced.wav"); [reflexivity|by vm_compute].
Defined.

(** The peak of a finite signal that is not silent is a finite positive
    value, and bounds the magnitude of every sample. *)
Lemma finite_signal_peak y :
  forallb finite32 y = true -> silent y = false ->
  exists mp ep,
    np_max (np_abs y) = Ok (S754_finite false mp ep) /\
    bounded prec emax mp ep = true /\
    Forall (fun x => finite32 x = true /\
                     SFleb (SFabs x) (S754_finite false mp ep) = true) y.
Proof.
  intros Hfin Hsil.
  assert (HF : Forall (fun x => finite32 x = true) y).
  { apply Forall_forall. intros x Hx. rewrite forallb_forall in Hfin.
    apply Hfin. by apply list_elem_of_In. }
  destruct y as [|x0 y']; [done|].
  unfold np_max, np_abs. cbn [fmap list_fmap].
  set (peak := fold_left np_maximum (SFabs <$> y') (SFabs x0)).
  assert (Hnn0 : nonneg32 (SFabs x0) = true).
  { apply finite32_abs_nonneg. by inversion HF. }
  assert (Hnn : Forall (fun v => nonneg32 v = true) (SFabs <$> y')).
  { apply Forall_fmap. inversion HF as [|? ? _ HF']; subst.
    eapply Forall_impl; [exact HF'|]. intros x. apply finite32_abs_nonneg. }
  destruct (fold_maximum_spec (SFabs <$> y') (SFabs x0) Hnn0 Hnn) as (Hin & Hpn & Hall).
  fold peak in Hin, Hpn, Hall.
  change (SFabs x0 :: (SFabs <$> y')) with (SFabs <$> (x0 :: y')) in Hin, Hall.
  apply list_elem_of_fmap in Hin as (xp & Hxp & Hxpin).
  rewrite Forall_fmap in Hall.
  destruct (silent_false_elem _ Hsil) as (xz & Hxz & Hnz).
  assert (Hpk : exists mp ep,
            peak = S754_finite false mp ep /\ bounded prec emax mp ep = true).
  { rewrite Forall_forall in HF, Hall.
    pose proof (HF xp Hxpin) as Hfp. pose proof (Hall xz Hxz) as Hle.
    pose proof (HF xz Hxz) as Hfz. cbn in Hle.
    destruct xp as [sp|sp| |sp mp ep]; try done.
    - rewrite Hxp in Hle. by destruct xz as [[]|[]| |[] ? ?].
    - exists mp, ep. split; [done|]. exact Hfp. }
  destruct Hpk as (mp & ep & Epk & Hbp).
  exists mp, ep. split; [by rewrite Epk|]. split; [done|].
  rewrite <- Epk. rewrite Forall_forall in HF, Hall. apply Forall_forall.
  intros x Hx. split; [by apply HF|by apply Hall].
Qed.

(** X20: peak normalisation of a finite signal that is not silent yields a
    signal of the same length in which every sample has magnitude at most
    1.0 (so none is NaN or infinite): the normalised audio cannot clip. *)
Theorem normalized_samples_within_unit (y : list spec_float) :
  forallb finite32 y = true -> silent y = false ->
  exists yn,
    peak_normalize y = Ok yn /\
    length yn = length y /\
    Forall (fun v => SFleb (SFabs v) f32_one = true) yn.
Proof.
  intros Hfin Hsil.
  destruct (finite_signal_peak y Hfin Hsil) as (mp & ep & Hmax & Hb & Hall).
  exists (np_divide y (S754_finite false mp ep)).
  unfold peak_normalize. rewrite Hmax. split; [done|].
  unfold np_divide. split; [apply length_fmap|].
  apply Forall_fmap. eapply Forall_impl; [exact Hall|].
  intros x [Hx Hle]. cbn. by apply SFdiv_by_peak_le_one.
Qed.

Lemma normalized_samples_within_unit_witness :
  forallb finite32 tone_emphasised = true /\ silent tone_emphasised = false /\
  exists yn,
    peak_normalize tone_emphasised = Ok yn /\
    length yn = length tone_emphasised /\
    Forall (fun v => SFleb (SFabs v) f32_one = true) yn.
Proof.
  split; [reflexivity|]. split; [reflexivity|].
  apply (normalized_samples_within_unit tone_emphasised); reflexivity.
Defined.
